(** * The contact-form handler of [functions/contact.ts]

    A shallow embedding of [onRequestPost] and of the string and regular
    expression operations it relies on, followed by the properties of the
    handler that the specification states.

    Strings are JavaScript strings: finite sequences of UTF-16 code units.
    A code unit is a number [N]; [lit] turns a Rocq string literal into the
    corresponding sequence, so that the constants of the source can be
    written the way the source writes them. *)

From Stdlib Require Import String Ascii.
From Stdlib Require Import List NArith Bool Arith Lia.
Import ListNotations.

Set Implicit Arguments.

(* ================================================================== *)
(** * Strings *)
(* ================================================================== *)

Module Str.

Definition char := N.
Definition str := list char.

Definition lit (s : String.string) : str :=
  map Ascii.N_of_ascii (String.list_ascii_of_string s).

(** The code units the handler names explicitly. *)
Definition LT : char := 60%N.      (* '<' *)
Definition GT : char := 62%N.      (* '>' *)
Definition AT : char := 64%N.      (* '@' *)
Definition DOT : char := 46%N.     (* '.' *)
Definition COMMA : char := 44%N.   (* ',' *)
Definition NL : char := 10%N.      (* '\n' *)
Definition DQUOTE : char := 34%N.
Definition BACKSLASH : char := 92%N.

(** [jsonlit] writes a JSON text with apostrophes standing for the double
    quotes. *)
Definition jsonlit (s : String.string) : str :=
  map (fun c => if N.eqb c 39%N then DQUOTE else c) (lit s).

Arguments lit s%_string.
Arguments jsonlit s%_string.

Fixpoint eqb (a b : str) : bool :=
  match a, b with
  | [], [] => true
  | x :: a', y :: b' => N.eqb x y && eqb a' b'
  | _, _ => false
  end.

(** ECMAScript [WhiteSpace] and [LineTerminator] code points: what the
    regular expression class [\s] matches and what [trim] removes. *)
Definition is_space (c : char) : bool :=
  (((9 <=? c) && (c <=? 13)) || (c =? 32) || (c =? 160) || (c =? 5760)
   || ((8192 <=? c) && (c <=? 8202)) || (c =? 8232) || (c =? 8233)
   || (c =? 8239) || (c =? 8287) || (c =? 12288) || (c =? 65279))%N.

(** [String.prototype.trimStart]. *)
Fixpoint trimStart (s : str) : str :=
  match s with
  | [] => []
  | c :: r => if is_space c then trimStart r else s
  end.

Definition trimEnd (s : str) : str := rev (trimStart (rev s)).

(** [String.prototype.trim]. *)
Definition trim (s : str) : str := trimEnd (trimStart s).

(** [a.startsWith(p)] and [String.prototype.includes]. *)
Fixpoint startsWith (p s : str) : bool :=
  match p, s with
  | [], _ => true
  | x :: p', y :: s' => N.eqb x y && startsWith p' s'
  | _ :: _, [] => false
  end.

Fixpoint includes (needle hay : str) : bool :=
  startsWith needle hay ||
  match hay with
  | [] => false
  | _ :: hay' => includes needle hay'
  end.

(** [s.split(sep)] for a one-character separator: it always yields at least
    one segment, and [n] separators yield [n + 1] segments. *)
Fixpoint split (sep : char) (s : str) : list str :=
  match s with
  | [] => [[]]
  | c :: r =>
      if N.eqb c sep then [] :: split sep r
      else match split sep r with
           | seg :: segs => (c :: seg) :: segs
           | [] => [[c]]
           end
  end.

(** Decimal digits of a number, the way a template literal prints it. *)
Fixpoint of_uint (d : Decimal.uint) : str :=
  match d with
  | Decimal.Nil => []
  | Decimal.D0 d => 48 :: of_uint d
  | Decimal.D1 d => 49 :: of_uint d
  | Decimal.D2 d => 50 :: of_uint d
  | Decimal.D3 d => 51 :: of_uint d
  | Decimal.D4 d => 52 :: of_uint d
  | Decimal.D5 d => 53 :: of_uint d
  | Decimal.D6 d => 54 :: of_uint d
  | Decimal.D7 d => 55 :: of_uint d
  | Decimal.D8 d => 56 :: of_uint d
  | Decimal.D9 d => 57 :: of_uint d
  end%N.

Definition of_number (n : N) : str :=
  match n with
  | 0%N => [48%N]
  | _ => of_uint (N.to_uint n)
  end.

End Str.

Import Str.

(* ================================================================== *)
(** * Regular expressions *)
(* ================================================================== *)

(** The three regular expressions of the handler, [/<[^>]*>/g],
    [/^[^\s@]+@[^\s@]+\.[^\s@]+$/] and [/\n/g], are sequences of character
    classes, each taken once, or under [*] or [+].  [exec] is the
    backtracking matcher of ECMAScript restricted to such sequences: a
    quantifier is greedy, and gives characters back one at a time when the
    rest of the pattern fails. *)

Module Regex.

Inductive quantifier := Once | Star | Plus.

Record atom := Atom { class : char -> bool; quant : quantifier }.

Definition regex := list atom.

Section Exec.
Variable A : Type.

(** One character of the class, then the continuation. *)
Definition once (cl : char -> bool) (cont : str -> option A) (s : str)
  : option A :=
  match s with
  | c :: s' => if cl c then cont s' else None
  | [] => None
  end.

(** As many characters of the class as possible, then the continuation;
    when the continuation fails, one character fewer. *)
Fixpoint star (cl : char -> bool) (cont : str -> option A) (s : str)
  : option A :=
  match s with
  | c :: s' =>
      if cl c
      then match star cl cont s' with
           | Some e => Some e
           | None => cont s
           end
      else cont s
  | [] => cont []
  end.

(** [exec r k s]: match [r] at the start of [s] and hand the rest of the
    input to the continuation [k]; the first success in backtracking
    order is the result. *)
Fixpoint exec (r : regex) (k : str -> option A) : str -> option A :=
  match r with
  | [] => k
  | a :: r' =>
      let next := exec r' k in
      match quant a with
      | Once => once (class a) next
      | Star => star (class a) next
      | Plus => once (class a) (star (class a) next)
      end
  end.
End Exec.

(** [/^r$/.test(s)]: the whole of [s] has to match. *)
Definition test (r : regex) (s : str) : bool :=
  match exec r (fun rest => match rest with [] => Some tt | _ => None end) s with
  | Some _ => true
  | None => false
  end.

(** [match_at r s]: the input left after a match of the unanchored [r] at
    the start of [s]. *)
Definition match_at (r : regex) (s : str) : option str :=
  exec r (fun rest => Some rest) s.

(** [/r/.test(s)] for the unanchored [r]: a match at some position. *)
Fixpoint search (r : regex) (s : str) : bool :=
  match match_at r s with
  | Some _ => true
  | None =>
      match s with
      | [] => false
      | _ :: s' => search r s'
      end
  end.

(** [s.replace(/r/g, by)].  The scan goes left to right; [skip] counts the
    characters of the current match that are still to be dropped.  After an
    empty match the scan moves on by one character, which is copied. *)
Fixpoint replace_from (r : regex) (by_ : str) (skip : nat) (s : str) : str :=
  match s with
  | [] =>
      match skip, match_at r [] with
      | 0, Some _ => by_
      | _, _ => []
      end
  | c :: s' =>
      match skip with
      | S n => replace_from r by_ n s'
      | 0 =>
          match match_at r s with
          | Some rest =>
              match length s - length rest with
              | 0 => by_ ++ c :: replace_from r by_ 0 s'
              | S n => by_ ++ replace_from r by_ n s'
              end
          | None => c :: replace_from r by_ 0 s'
          end
      end
  end.

Definition replace (r : regex) (by_ : str) (s : str) : str :=
  replace_from r by_ 0 s.

(** The language of a pattern, as a relation: the reading of a regular
    expression that does not mention backtracking. *)
Definition atom_matches (a : atom) (p : str) : Prop :=
  Forall (fun c => class a c = true) p /\
  match quant a with
  | Once => length p = 1
  | Star => True
  | Plus => 1 <= length p
  end.

Fixpoint matches (r : regex) (p : str) : Prop :=
  match r with
  | [] => p = []
  | a :: r' => exists p1 p2, p = p1 ++ p2 /\ atom_matches a p1 /\ matches r' p2
  end.

End Regex.

Import Regex.

(* ================================================================== *)
(** * Sanitation and the email pattern *)
(* ================================================================== *)

(** [/<[^>]*>/g] *)
Definition tagRegex : regex :=
  [ Atom (fun c => N.eqb c LT) Once;
    Atom (fun c => negb (N.eqb c GT)) Star;
    Atom (fun c => N.eqb c GT) Once ].

(** [str.replace(/<[^>]*>/g, '')] *)
Definition strip_tags (s : str) : str := replace tagRegex [] s.

(** [const sanitize = (str: string) => str.replace(/<[^>]*>/g, '').trim()] *)
Definition sanitize (s : str) : str :=
  trim (strip_tags s).

(** [[^\s@]] *)
Definition not_space_at (c : char) : bool :=
  negb (is_space c || N.eqb c AT).

(** [const emailRegex = /^[^\s@]+@[^\s@]+\.[^\s@]+$/] *)
Definition emailRegex : regex :=
  [ Atom not_space_at Plus;
    Atom (fun c => N.eqb c AT) Once;
    Atom not_space_at Plus;
    Atom (fun c => N.eqb c DOT) Once;
    Atom not_space_at Plus ].

(** [/\n/g] *)
Definition newlineRegex : regex :=
  [ Atom (fun c => N.eqb c NL) Once ].

(** An HTML-tag-like substring: a [<] with a [>] somewhere after it. *)
Definition tag_like (s : str) : Prop :=
  exists a m b, s = a ++ LT :: m ++ GT :: b.

(** The input after the first [>], when there is one. *)
Fixpoint after_gt (s : str) : option str :=
  match s with
  | [] => None
  | c :: r => if N.eqb c GT then Some r else after_gt r
  end.

(** No whitespace at either end. *)
Definition trimmed (s : str) : Prop :=
  (forall c r, s = c :: r -> is_space c = false) /\
  (forall r c, s = r ++ [c] -> is_space c = false).

Definition trimmedb (s : str) : bool :=
  match s with
  | [] => true
  | c :: _ => negb (is_space c) && negb (is_space (last s c))
  end.

(** The shape [local@domain.tld] in the words of the specification. *)
Definition email_shape (s : str) : Prop :=
  exists l d t,
    s = l ++ AT :: d ++ DOT :: t /\
    l <> [] /\ d <> [] /\ t <> [] /\
    Forall (fun c => is_space c = false /\ c <> AT) (l ++ d ++ t).

(* ================================================================== *)
(** * Values, promises, requests and responses *)
(* ================================================================== *)

(** What an [await] or a method call can throw into the [catch] block. *)
Inductive exn :=
| TypeError
| SyntaxError
| Error (message : str).

Inductive promise (A : Type) :=
| Resolved (a : A)
| Rejected (e : exn).

Arguments Rejected {A} e.

(** A value parsed by [request.json()].  The value of a number plays no
    part in the handler. *)
Unset Elimination Schemes.
Inductive json :=
| JNull
| JBoolean (b : bool)
| JNumber
| JString (s : str)
| JArray (items : list json)
| JObject (members : list (str * json)).
Set Elimination Schemes.

(** [FormDataEntryValue]. *)
Inductive entry :=
| EString (s : str)
| EFile.

(** What a property of [contactData] holds before sanitation: a string,
    [undefined], or some other value ([null], a boolean, a number, an
    array, an object, a [File]).  The cast [as ContactRequest] checks
    nothing at run time. *)
Inductive value :=
| Undefined
| StringValue (s : str)
| Other.

Record IncomingRequestCfProperties := {
  cf_country : option str;
  cf_city : option str;
  cf_region : option str;
  cf_timezone : option str;
  cf_asn : option N;
  cf_colo : option str
}.

(** The request, as far as the handler looks at it: [request.headers.get],
    the promises of [request.json()] and [request.formData()], and
    [request.cf]. *)
Record Request := {
  headers_get : str -> option str;
  json_body : promise json;
  formData : promise (list (str * entry));
  cf : option IncomingRequestCfProperties
}.

Record Env := {
  RESEND_API_KEY : str;
  TO_EMAIL : str;
  ALLOWED_ORIGINS : str
}.

Record EventContext := {
  request : Request;
  env : Env
}.

Record Response := {
  body : str;
  status : N;
  response_headers : list (str * str)
}.

(** The arguments of the call of [fetch], and the part of its answer that
    the handler reads. *)
Record FetchCall := {
  url : str;
  method : str;
  fetch_headers : list (str * str);
  fetch_body : str
}.

Record FetchResponse := { ok : bool }.

(** [interface ContactRequest], once every field holds a string. *)
Record ContactRequest := {
  name : str;
  email : str;
  phone : str;
  message : str
}.

Record Metadata := {
  clientIP : str;
  userAgent : str;
  country : str;
  city : str;
  region : str;
  timezone : str;
  asn : str;
  colo : str
}.

(** What one invocation leaves behind: the response, and what the [catch]
    block wrote with [console.error]. *)
Record Served := {
  response : Response;
  console_error : option exn
}.

(* ================================================================== *)
(** * Control flow of the [try] block *)
(* ================================================================== *)

(** A statement goes on with a value, returns a response from the handler,
    or throws. *)
Inductive outcome (A : Type) :=
| Ok (a : A)
| Return (r : Response)
| Throw (e : exn).

Arguments Return {A} r.
Arguments Throw {A} e.

Definition bind {A B : Type} (c : outcome A) (k : A -> outcome B) : outcome B :=
  match c with
  | Ok a => k a
  | Return r => Return r
  | Throw e => Throw e
  end.

Notation "x <- c ;; k" := (bind c (fun x => k))
  (at level 61, c at next level, right associativity).

Definition await {A : Type} (p : promise A) : outcome A :=
  match p with
  | Resolved a => Ok a
  | Rejected e => Throw e
  end.

(* ================================================================== *)
(** * JSON.stringify on the object literals of the handler *)
(* ================================================================== *)

Module JSON.

Inductive literal :=
| LBoolean (b : bool)
| LString (s : str).

Definition hex_digit (n : N) : char :=
  (if n <? 10 then 48 + n else 87 + n)%N.

Definition unicode_escape (c : char) : str :=
  [ BACKSLASH; 117;
    hex_digit ((c / 4096) mod 16); hex_digit ((c / 256) mod 16);
    hex_digit ((c / 16) mod 16); hex_digit (c mod 16) ]%N.

Definition is_high_surrogate (c : char) : bool :=
  ((55296 <=? c) && (c <=? 56319))%N.

Definition is_low_surrogate (c : char) : bool :=
  ((56320 <=? c) && (c <=? 57343))%N.

Definition escape_unit (c : char) : str :=
  (if c =? 8 then [BACKSLASH; 98]
   else if c =? 9 then [BACKSLASH; 116]
   else if c =? 10 then [BACKSLASH; 110]
   else if c =? 12 then [BACKSLASH; 102]
   else if c =? 13 then [BACKSLASH; 114]
   else if c =? DQUOTE then [BACKSLASH; DQUOTE]
   else if c =? BACKSLASH then [BACKSLASH; BACKSLASH]
   else if c <? 32 then unicode_escape c
   else [c])%N.

Fixpoint quote_units (s : str) : str :=
  match s with
  | [] => []
  | c :: r =>
      if is_high_surrogate c then
        match r with
        | d :: r' =>
            if is_low_surrogate d then c :: d :: quote_units r'
            else unicode_escape c ++ quote_units r
        | [] => unicode_escape c
        end
      else if is_low_surrogate c then unicode_escape c ++ quote_units r
      else escape_unit c ++ quote_units r
  end.

(** [QuoteJSONString] of ECMA-262. *)
Definition QuoteJSONString (s : str) : str :=
  DQUOTE :: quote_units s ++ [DQUOTE].

Definition member (kv : str * literal) : str :=
  QuoteJSONString (fst kv) ++ lit ":" ++
  match snd kv with
  | LBoolean true => lit "true"
  | LBoolean false => lit "false"
  | LString s => QuoteJSONString s
  end.

Fixpoint join (sep : str) (l : list str) : str :=
  match l with
  | [] => []
  | [x] => x
  | x :: l' => x ++ sep ++ join sep l'
  end.

Definition stringify (o : list (str * literal)) : str :=
  lit "{" ++ join (lit ",") (map member o) ++ lit "}".

End JSON.

(* ================================================================== *)
(** * The handler *)
(* ================================================================== *)

(** [new Response(text, { status })] *)
Definition text_response (text : str) (st : N) : Response :=
  {| body := text; status := st; response_headers := [] |}.

(** [new Response(JSON.stringify(o), { status, headers: { 'Content-Type':
    'application/json' } })] *)
Definition json_response (o : list (str * JSON.literal)) (st : N) : Response :=
  {| body := JSON.stringify o;
     status := st;
     response_headers := [(lit "Content-Type", lit "application/json")] |}.

(** [allowedDomains.includes(origin)] *)
Definition array_includes (l : list str) (x : str) : bool :=
  existsb (Str.eqb x) l.

(** Line 24: [origin && !allowedDomains.includes(origin)].  A header that
    is absent ([null]) and a header with an empty value are both falsy. *)
Definition origin_forbidden (origin : option str) (allowedDomains : list str)
  : bool :=
  match origin with
  | Some (c :: o) => negb (array_includes allowedDomains (c :: o))
  | Some [] => false
  | None => false
  end.

(** Line 31: [contentType?.includes('application/json')] *)
Definition is_json (contentType : option str) : bool :=
  match contentType with
  | Some ct => includes (lit "application/json") ct
  | None => false
  end.

(** Reading the property [key] of an object made by [JSON.parse]: of the
    members with that key the last one counts; an absent key reads as
    [undefined]. *)
Fixpoint member_get (key : str) (members : list (str * json)) : option json :=
  match members with
  | [] => None
  | (k, v) :: rest =>
      match member_get key rest with
      | Some v' => Some v'
      | None => if Str.eqb k key then Some v else None
      end
  end.

Definition json_value (j : json) : value :=
  match j with
  | JString s => StringValue s
  | _ => Other
  end.

(** [contactData.key] for [contactData = await request.json()].  Reading a
    property of [null] throws; a boolean, a number, a string and an array
    have none of the four properties. *)
Definition member_value (key : str) (members : list (str * json)) : value :=
  match member_get key members with
  | Some v => json_value v
  | None => Undefined
  end.

Definition json_get (contactData : json) (key : str) : outcome value :=
  match contactData with
  | JNull => Throw TypeError
  | JObject members => Ok (member_value key members)
  | _ => Ok Undefined
  end.

(** [formData.get(key)]: the first entry of that name, or [null]. *)
Fixpoint formData_get (fd : list (str * entry)) (key : str) : option entry :=
  match fd with
  | [] => None
  | (k, v) :: rest => if Str.eqb k key then Some v else formData_get rest key
  end.

(** Lines 36-39: [(formData.get(key) as string) || ''] *)
Definition form_field (fd : list (str * entry)) (key : str) : value :=
  match formData_get fd key with
  | Some (EString (c :: s)) => StringValue (c :: s)
  | Some (EString []) => StringValue []
  | Some EFile => Other
  | None => StringValue []
  end.

(** [contactData] before sanitation, property by property. *)
Record RawContact := {
  raw_name : value;
  raw_email : value;
  raw_phone : value;
  raw_message : value
}.

(** Lines 28-41, together with the four property reads of lines 45-48. *)
Definition parse_body (request : Request) : outcome RawContact :=
  let contentType := headers_get request (lit "content-type") in
  if is_json contentType then
    contactData <- await (json_body request) ;;
    n <- json_get contactData (lit "name") ;;
    e <- json_get contactData (lit "email") ;;
    p <- json_get contactData (lit "phone") ;;
    m <- json_get contactData (lit "message") ;;
    Ok {| raw_name := n; raw_email := e; raw_phone := p; raw_message := m |}
  else
    fd <- await (formData request) ;;
    Ok {| raw_name := form_field fd (lit "name");
          raw_email := form_field fd (lit "email");
          raw_phone := form_field fd (lit "phone");
          raw_message := form_field fd (lit "message") |}.

(** The call [sanitize(v)] on a run-time value: [v.replace] is a function
    only when [v] is a string. *)
Definition sanitize_call (v : value) : outcome str :=
  match v with
  | StringValue s => Ok (sanitize s)
  | Undefined | Other => Throw TypeError
  end.

(** Lines 18-48: origin check, body parsing, sanitation. *)
Definition sanitized (context : EventContext) : outcome ContactRequest :=
  let request := request context in
  let env := env context in
  let origin := headers_get request (lit "Origin") in
  let allowedDomains := split COMMA (ALLOWED_ORIGINS env) in
  if origin_forbidden origin allowedDomains then
    Return (text_response (lit "Forbidden") 403)
  else
    contactData <- parse_body request ;;
    n <- sanitize_call (raw_name contactData) ;;
    e <- sanitize_call (raw_email contactData) ;;
    p <- sanitize_call (raw_phone contactData) ;;
    m <- sanitize_call (raw_message contactData) ;;
    Ok {| name := n; email := e; phone := p; message := m |}.

(** [!s] for a string. *)
Definition falsy (s : str) : bool :=
  match s with
  | [] => true
  | _ :: _ => false
  end.

(** Lines 50-64: required fields, email shape, length limits. *)
Definition validate (contactData : ContactRequest) : outcome unit :=
  if falsy (name contactData) || falsy (email contactData)
     || falsy (message contactData) then
    Return (text_response
              (lit "Missing required fields: name, email, message") 400)
  else if negb (test emailRegex (email contactData)) then
    Return (text_response (lit "Invalid email format") 400)
  else if (100 <? length (name contactData))
          || (255 <? length (email contactData))
          || (5000 <? length (message contactData)) then
    Return (text_response (lit "Input too long") 400)
  else Ok tt.

(** [a || b] where [a] is a string or [null]. *)
Definition or_else (a : option str) (b : option str) : option str :=
  match a with
  | Some (c :: s) => Some (c :: s)
  | _ => b
  end.

Definition or_unknown (a : option str) : str :=
  match a with
  | Some (c :: s) => c :: s
  | _ => lit "unknown"
  end.

(** [request.cf?.field] *)
Definition cf_field {A : Type}
  (field : IncomingRequestCfProperties -> option A)
  (c : option IncomingRequestCfProperties) : option A :=
  match c with
  | Some props => field props
  | None => None
  end.

(** Lines 67-74.  [asn] is a number: [0] is falsy, and the template prints
    any other in decimal. *)
Definition metadata (request : Request) : Metadata :=
  {| clientIP :=
       or_unknown (or_else (headers_get request (lit "CF-Connecting-IP"))
                           (headers_get request (lit "X-Forwarded-For")));
     userAgent := or_unknown (headers_get request (lit "User-Agent"));
     country := or_unknown (cf_field cf_country (cf request));
     city := or_unknown (cf_field cf_city (cf request));
     region := or_unknown (cf_field cf_region (cf request));
     timezone := or_unknown (cf_field cf_timezone (cf request));
     asn := match cf_field cf_asn (cf request) with
            | Some 0%N | None => lit "unknown"
            | Some n => of_number n
            end;
     colo := or_unknown (cf_field cf_colo (cf request)) |}.

(** A line break of the template literal followed by its indentation. *)
Definition indent (n : nat) : str := NL :: repeat 32%N n.

(** Line 92: [contactData.message.replace(/\n/g, '<br>')] *)
Definition message_html (m : str) : str :=
  replace newlineRegex (lit "<br>") m.

(** Lines 86-102: the template literal. *)
Definition html (contactData : ContactRequest) (meta : Metadata) : str :=
  concat
    [ indent 10; lit "<h2>New Contact Form Submission</h2>";
      indent 10; lit "<p><strong>Name:</strong> "; name contactData;
                 lit "</p>";
      indent 10; lit "<p><strong>Email:</strong> "; email contactData;
                 lit "</p>";
      indent 10; lit "<p><strong>Phone:</strong> ";
                 (if falsy (phone contactData) then lit "Not provided"
                  else phone contactData);
                 lit "</p>";
      indent 10; lit "<p><strong>Message:</strong></p>";
      indent 10; lit "<p>"; message_html (message contactData); lit "</p>";
      indent 10;
      indent 10; lit "<hr>";
      indent 10; lit "<h3>Connection Details</h3>";
      indent 10; lit "<p><strong>IP Address:</strong> "; clientIP meta;
                 lit "</p>";
      indent 10; lit "<p><strong>Location:</strong> "; city meta; lit ", ";
                 region meta; lit ", "; country meta; lit "</p>";
      indent 10; lit "<p><strong>Timezone:</strong> "; timezone meta;
                 lit "</p>";
      indent 10; lit "<p><strong>ISP:</strong> "; asn meta; lit "</p>";
      indent 10; lit "<p><strong>Cloudflare DC:</strong> "; colo meta;
                 lit "</p>";
      indent 10; lit "<p><strong>User Agent:</strong> "; userAgent meta;
                 lit "</p>";
      indent 8 ].

(** Lines 82-104: the object handed to [JSON.stringify]. *)
Definition payload (env : Env) (contactData : ContactRequest)
  (meta : Metadata) : list (str * JSON.literal) :=
  [ (lit "from", JSON.LString (lit "contact@yourdomain.com"));
    (lit "to", JSON.LString (TO_EMAIL env));
    (lit "subject",
      JSON.LString (lit "Contact Form: " ++ name contactData));
    (lit "html", JSON.LString (html contactData meta));
    (lit "reply_to", JSON.LString (email contactData)) ].

(** Lines 76-105: the arguments of [fetch]. *)
Definition email_call (env : Env) (contactData : ContactRequest)
  (meta : Metadata) : FetchCall :=
  {| url := lit "https://api.resend.com/emails";
     method := lit "POST";
     fetch_headers :=
       [ (lit "Authorization", lit "Bearer " ++ RESEND_API_KEY env);
         (lit "Content-Type", lit "application/json") ];
     fetch_body := JSON.stringify (payload env contactData meta) |}.

(** Everything the [try] block does before it calls [fetch]. *)
Definition before_fetch (context : EventContext) : outcome FetchCall :=
  contactData <- sanitized context ;;
  _ <- validate contactData ;;
  Ok (email_call (env context) contactData (metadata (request context))).

(** Lines 105-114: from the answer of [fetch] to the end of the [try]
    block, which is left by [return] or by [throw] only. *)
Definition after_fetch (answer : promise FetchResponse) : outcome Empty_set :=
  emailResponse <- await answer ;;
  if negb (ok emailResponse) then
    Throw (Error (lit "Failed to send email"))
  else
    Return (json_response
              [ (lit "success", JSON.LBoolean true);
                (lit "message", JSON.LString (lit "Email sent successfully")) ]
              200).

Definition try_block (fetch : FetchCall -> promise FetchResponse)
  (context : EventContext) : outcome Empty_set :=
  call <- before_fetch context ;;
  after_fetch (fetch call).

(** [export const onRequestPost], with the provider as the function
    [fetch]. *)
Definition onRequestPost (fetch : FetchCall -> promise FetchResponse)
  (context : EventContext) : Served :=
  match try_block fetch context with
  | Ok impossible => match impossible with end
  | Return r => {| response := r; console_error := None |}
  | Throw error =>
      {| response :=
           json_response
             [ (lit "success", JSON.LBoolean false);
               (lit "message", JSON.LString (lit "Failed to send email")) ]
             500;
         console_error := Some error |}
  end.

(* ================================================================== *)
(** * Vocabulary of the statements, and sample requests *)
(* ================================================================== *)

(** [a] occurs in [s] as a substring. *)
Definition infix (a s : str) : Prop :=
  exists x y, s = x ++ a ++ y.

(** The two responses of lines 111-114 and 118-121, written out. *)
Definition success_response : Response :=
  {| body := jsonlit "{'success':true,'message':'Email sent successfully'}";
     status := 200;
     response_headers := [(lit "Content-Type", lit "application/json")] |}.

Definition failure_response : Response :=
  {| body := jsonlit "{'success':false,'message':'Failed to send email'}";
     status := 500;
     response_headers := [(lit "Content-Type", lit "application/json")] |}.

(** Sample requests.  [Headers.get] ignores the case of a header name. *)
Definition lower (c : char) : char :=
  (if (65 <=? c) && (c <=? 90) then c + 32 else c)%N.

Definition header_table (l : list (str * str)) : str -> option str :=
  fun key =>
    match find (fun kv => Str.eqb (map lower (fst kv)) (map lower key)) l with
    | Some kv => Some (snd kv)
    | None => None
    end.

Definition env_allowing (allowed : str) : Env :=
  {| RESEND_API_KEY := lit "re_123";
     TO_EMAIL := lit "owner@site.example";
     ALLOWED_ORIGINS := allowed |}.

Definition site_env : Env := env_allowing (lit "https://site.example").

Definition context_of (r : Request) : EventContext :=
  {| request := r; env := site_env |}.

(** A request with a JSON body that parses to [doc]. *)
Definition json_request (extra : list (str * str)) (doc : json) : Request :=
  {| headers_get :=
       header_table ((lit "Content-Type", lit "application/json") :: extra);
     json_body := Resolved doc;
     formData := Rejected TypeError;
     cf := None |}.

(** A request with a form-encoded body that holds [fields]. *)
Definition form_request (extra : list (str * str))
  (fields : list (str * entry)) : Request :=
  {| headers_get :=
       header_table
         ((lit "Content-Type", lit "application/x-www-form-urlencoded")
            :: extra);
     json_body := Rejected SyntaxError;
     formData := Resolved fields;
     cf := None |}.

Definition origin_header (o : str) : list (str * str) := [(lit "Origin", o)].

Definition provider_accepts : FetchCall -> promise FetchResponse :=
  fun _ => Resolved {| ok := true |}.

Definition provider_refuses : FetchCall -> promise FetchResponse :=
  fun _ => Resolved {| ok := false |}.

Definition provider_unreachable : FetchCall -> promise FetchResponse :=
  fun _ => Rejected TypeError.

(** Ann's submission, as JSON members and as form fields. *)
Definition ann_json : list (str * json) :=
  [ (lit "name", JString (lit "Ann"));
    (lit "email", JString (lit "a@b.co"));
    (lit "phone", JString (lit "555 0100"));
    (lit "message", JString (lit "hi")) ].

Definition ann_form : list (str * entry) :=
  [ (lit "name", EString (lit "Ann"));
    (lit "email", EString (lit "a@b.co"));
    (lit "phone", EString (lit "555 0100"));
    (lit "message", EString (lit "hi")) ].

Definition ann : ContactRequest :=
  {| name := lit "Ann"; email := lit "a@b.co"; phone := lit "555 0100";
     message := lit "hi" |}.

(** The same submission without one field, or with another value for it. *)
Definition without (key : str) {V : Type} (l : list (str * V)) : list (str * V) :=
  filter (fun kv => negb (Str.eqb (fst kv) key)) l.

Definition with_field {V : Type} (key : str) (v : V) (l : list (str * V))
  : list (str * V) :=
  (key, v) :: without key l.

Definition letters (n : nat) : str := repeat 97%N n.

(** A submission with markup, a line break and no phone number, sent from
    the allowed origin through the edge network. *)
Definition detailed_request : Request :=
  {| headers_get :=
       header_table
         [ (lit "Content-Type", lit "application/json; charset=utf-8");
           (lit "Origin", lit "https://site.example");
           (lit "CF-Connecting-IP", lit "203.0.113.7");
           (lit "User-Agent", lit "curl/8.0") ];
     json_body :=
       Resolved
         (JObject
            [ (lit "name", JString (lit " <b>Ann</b> "));
              (lit "email", JString (lit "a@b.co"));
              (lit "phone", JString []);
              (lit "message",
                JString (lit "hi" ++ NL :: lit "there <i>you</i>")) ]);
     formData := Rejected TypeError;
     cf := Some {| cf_country := Some (lit "US");
                   cf_city := None;
                   cf_region := Some [];
                   cf_timezone := Some (lit "UTC");
                   cf_asn := Some 13335%N;
                   cf_colo := Some (lit "SJC") |} |}.

(** What sanitation makes of it. *)
Definition detailed_contact : ContactRequest :=
  {| name := lit "Ann"; email := lit "a@b.co"; phone := [];
     message := lit "hi" ++ NL :: lit "there you" |}.

(** [a] is what is left of [s] after some of its characters were taken
    out. *)
Inductive subsequence : str -> str -> Prop :=
| sub_nil : subsequence [] []
| sub_keep (c : char) (a s : str) :
    subsequence a s -> subsequence (c :: a) (c :: s)
| sub_drop (c : char) (a s : str) :
    subsequence a s -> subsequence a (c :: s).

(** Reading a JSON string literal back: the inverse of [QuoteJSONString],
    after the grammar of JSON strings.  The text between the quotes holds
    no bare double quote and no control character; a backslash starts one
    of the two-character escapes or [\u] and four hexadecimal digits. *)
Definition unhex (c : char) : option N :=
  (if (48 <=? c) && (c <=? 57) then Some (c - 48)
   else if (97 <=? c) && (c <=? 102) then Some (c - 87)
   else if (65 <=? c) && (c <=? 70) then Some (c - 55)
   else None)%N.

Definition simple_escape (e : char) : option char :=
  (if e =? 98 then Some 8
   else if e =? 116 then Some 9
   else if e =? 110 then Some 10
   else if e =? 102 then Some 12
   else if e =? 114 then Some 13
   else if e =? DQUOTE then Some DQUOTE
   else if e =? BACKSLASH then Some BACKSLASH
   else if e =? 47 then Some 47
   else None)%N.

Fixpoint unquote_units (s : str) : option str :=
  match s with
  | [] => Some []
  | c :: r =>
      if N.eqb c BACKSLASH then
        match r with
        | e :: r' =>
            if N.eqb e 117%N then
              match r' with
              | h1 :: h2 :: h3 :: h4 :: r'' =>
                  match unhex h1, unhex h2, unhex h3, unhex h4,
                        unquote_units r'' with
                  | Some a, Some b, Some c', Some d, Some t =>
                      Some ((4096 * a + 256 * b + 16 * c' + d)%N :: t)
                  | _, _, _, _, _ => None
                  end
              | _ => None
              end
            else
              match simple_escape e, unquote_units r' with
              | Some x, Some t => Some (x :: t)
              | _, _ => None
              end
        | [] => None
        end
      else if N.eqb c DQUOTE || N.ltb c 32%N then None
      else
        match unquote_units r with
        | Some t => Some (c :: t)
        | None => None
        end
  end.

Definition unquote (s : str) : option str :=
  match s with
  | q :: r =>
      match rev r with
      | q' :: m =>
          if N.eqb q DQUOTE && N.eqb q' DQUOTE then unquote_units (rev m)
          else None
      | [] => None
      end
  | [] => None
  end.

(* ================================================================== *)
(** * The operations at work *)
(* ================================================================== *)

Example sanitize_markup :
  sanitize (lit "  <b>Ann</b> <i x='1'>Lee  ") = lit "Ann Lee".
Proof. vm_compute. reflexivity. Qed.

(** A [<] that is never closed stays, and so does a [>] that was never
    opened. *)
Example sanitize_unclosed : sanitize (lit "a < b") = lit "a < b".
Proof. vm_compute. reflexivity. Qed.

Example sanitize_nested : sanitize (lit "<<a>b> c") = lit "b> c".
Proof. vm_compute. reflexivity. Qed.

Example emailRegex_subdomains : test emailRegex (lit "a.b@c.d.e") = true.
Proof. vm_compute. reflexivity. Qed.

Example emailRegex_two_ats : test emailRegex (lit "a@b@c.d") = false.
Proof. vm_compute. reflexivity. Qed.

Example emailRegex_no_dot : test emailRegex (lit "a@b") = false.
Proof. vm_compute. reflexivity. Qed.

Example split_empty_segments :
  split COMMA (lit "x,,y,") = [lit "x"; []; lit "y"; []].
Proof. vm_compute. reflexivity. Qed.

Example split_empty_string : split COMMA [] = [[]].
Proof. reflexivity. Qed.

Example replace_line_breaks :
  message_html (lit "a" ++ NL :: NL :: lit "b") = lit "a<br><br>b".
Proof. vm_compute. reflexivity. Qed.

(** An empty match is replaced where it stands, and the scan moves on by
    one character. *)
Example replace_empty_matches :
  replace [Atom (fun c => N.eqb c 98) Star] (lit "-") (lit "abc")
  = lit "-a--c-".
Proof. vm_compute. reflexivity. Qed.

(** A backslash, a line feed and a double quote inside a JSON string. *)
Example stringify_escapes :
  JSON.stringify
    [(lit "k", JSON.LString (lit "a\b" ++ NL :: DQUOTE :: lit "c"))]
  = jsonlit "{'k':'a\\b\n\'c'}".
Proof. vm_compute. reflexivity. Qed.

Example detailed_request_sanitized :
  sanitized (context_of detailed_request) = Ok detailed_contact.
Proof. vm_compute. reflexivity. Qed.

(* ================================================================== *)
(** * Strings: equality, trimming, splitting *)
(* ================================================================== *)

Lemma eqb_eq (a b : str) : Str.eqb a b = true <-> a = b.
Proof.
  revert b. induction a as [|x a IH]; destruct b as [|y b]; simpl;
    try (split; [discriminate|discriminate]); [tauto|].
  rewrite andb_true_iff, N.eqb_eq, IH. split.
  - intros [-> ->]. reflexivity.
  - intros H. inversion H. auto.
Qed.

Lemma eqb_refl (a : str) : Str.eqb a a = true.
Proof. now apply eqb_eq. Qed.

Lemma eqb_neq (a b : str) : Str.eqb a b = false <-> a <> b.
Proof.
  rewrite <- eqb_eq. destruct (Str.eqb a b); split; congruence.
Qed.

Lemma array_includes_In (l : list str) (x : str) :
  array_includes l x = true <-> In x l.
Proof.
  unfold array_includes. rewrite existsb_exists. split.
  - intros (y & Hy & E). apply eqb_eq in E. now subst.
  - intros H. exists x. split; [assumption|apply eqb_refl].
Qed.

Lemma trimStart_split (s : str) :
  exists a, s = a ++ trimStart s /\ Forall (fun c => is_space c = true) a.
Proof.
  induction s as [|c s (a & E & Ha)]; cbn [trimStart].
  - exists []. auto.
  - destruct (is_space c) eqn:Hc.
    + exists (c :: a). split; [simpl; congruence|auto].
    + exists []. auto.
Qed.

Lemma trimStart_head (s : str) c r :
  trimStart s = c :: r -> is_space c = false.
Proof.
  induction s as [|d s IH]; cbn [trimStart]; [discriminate|].
  destruct (is_space d) eqn:Hd; [assumption|].
  intros H. inversion H. now subst.
Qed.

Lemma trimStart_id (s : str) :
  (forall c r, s = c :: r -> is_space c = false) -> trimStart s = s.
Proof.
  destruct s as [|c s]; [reflexivity|].
  intros H. cbn [trimStart]. now rewrite (H c s eq_refl).
Qed.

Lemma trimEnd_split (s : str) : exists b, s = trimEnd s ++ b.
Proof.
  unfold trimEnd. destruct (trimStart_split (rev s)) as (a & E & _).
  exists (rev a). rewrite <- rev_app_distr, <- E. now rewrite rev_involutive.
Qed.

Lemma trimEnd_last (s : str) r c :
  trimEnd s = r ++ [c] -> is_space c = false.
Proof.
  unfold trimEnd. intros H.
  apply (f_equal (@rev char)) in H.
  rewrite rev_involutive, rev_app_distr in H. simpl in H.
  now apply trimStart_head in H.
Qed.

Lemma trimEnd_id (s : str) :
  (forall r c, s = r ++ [c] -> is_space c = false) -> trimEnd s = s.
Proof.
  intros H. unfold trimEnd. rewrite trimStart_id; [apply rev_involutive|].
  intros c r E. apply (H (rev r) c).
  rewrite <- (rev_involutive s), E. reflexivity.
Qed.

(** [trim] cuts a substring out of its argument. *)
Lemma trim_infix (s : str) : exists a b, s = a ++ trim s ++ b.
Proof.
  unfold trim. destruct (trimStart_split s) as (a & E & _).
  destruct (trimEnd_split (trimStart s)) as (b & E').
  exists a, b. now rewrite <- E', <- E.
Qed.

Lemma trim_trimmed (s : str) : trimmed (trim s).
Proof.
  unfold trim. split.
  - intros c r E.
    destruct (trimEnd_split (trimStart s)) as (b & E').
    rewrite E in E'. simpl in E'. now apply trimStart_head in E'.
  - intros r c E. now apply trimEnd_last in E.
Qed.

Lemma trim_id (s : str) : trimmed s -> trim s = s.
Proof.
  intros [Hh Hl]. unfold trim. rewrite (trimStart_id Hh).
  now apply trimEnd_id.
Qed.

Lemma trimmedb_true (s : str) : trimmedb s = true -> trimmed s.
Proof.
  destruct s as [|c s]; [split; intros; [discriminate|]|].
  - now destruct r.
  - cbn [trimmedb]. rewrite andb_true_iff, !negb_true_iff. intros [Hc Hl].
    split.
    + intros d r E. inversion E. now subst.
    + intros r d E. rewrite E, last_last in Hl. assumption.
Qed.

(** [split] yields a segment even for the empty string, and its segments
    hold no separator. *)
Lemma split_not_nil sep (s : str) : split sep s <> [].
Proof.
  induction s as [|c s IH]; simpl; [discriminate|].
  destruct (N.eqb c sep); [discriminate|].
  destruct (split sep s); [contradiction|discriminate].
Qed.

Lemma split_no_sep sep (s : str) seg :
  In seg (split sep s) -> ~ In sep seg.
Proof.
  revert seg. induction s as [|c s IH]; simpl; intros seg H.
  - destruct H as [<-|[]]. auto.
  - destruct (N.eqb c sep) eqn:E.
    + destruct H as [<-|H]; [auto|now apply IH].
    + destruct (split sep s) as [|h t] eqn:Es.
      * destruct H as [<-|[]]. intros [->|[]].
        now rewrite N.eqb_refl in E.
      * destruct H as [<-|H].
        -- intros [->|Hin]; [now rewrite N.eqb_refl in E|].
           revert Hin. apply IH. now left.
        -- apply IH. now right.
Qed.

Lemma join_cons (sep x y : str) (l : list str) :
  JSON.join sep (x :: y :: l) = x ++ sep ++ JSON.join sep (y :: l).
Proof. reflexivity. Qed.

(** Joining the segments with the separator gives the string back. *)
Lemma split_join sep (s : str) :
  JSON.join [sep] (split sep s) = s.
Proof.
  induction s as [|c s IH]; [reflexivity|]. cbn [split].
  pose proof (split_not_nil sep s) as Hn.
  destruct (split sep s) as [|h t]; [contradiction|].
  destruct (N.eqb c sep) eqn:E.
  - apply N.eqb_eq in E. subst c. rewrite join_cons, IH. reflexivity.
  - destruct t as [|h' t].
    + simpl in *. now rewrite IH.
    + rewrite join_cons in *. rewrite <- IH. reflexivity.
Qed.

(* ================================================================== *)
(** * The matcher and the language of a pattern *)
(* ================================================================== *)

Section ExecFacts.
Variable A : Type.
Implicit Types (k : str -> option A) (cl : char -> bool).

Lemma star_sound cl k s e :
  star cl k s = Some e ->
  exists p rest,
    s = p ++ rest /\ Forall (fun c => cl c = true) p /\ k rest = Some e.
Proof.
  induction s as [|c s IH]; simpl; intros H.
  - exists [], []. auto.
  - destruct (cl c) eqn:Hc.
    + destruct (star cl k s) as [e'|] eqn:Hs.
      * inversion H; subst e'.
        destruct (IH eq_refl) as (p & rest & -> & Hp & Hk).
        exists (c :: p), rest. auto.
      * exists [], (c :: s). auto.
    + exists [], (c :: s). auto.
Qed.

Lemma star_complete cl k p rest e :
  Forall (fun c => cl c = true) p -> k rest = Some e ->
  exists e', star cl k (p ++ rest) = Some e'.
Proof.
  intros Hp Hk. induction Hp as [|c p Hc _ IH]; simpl.
  - destruct rest as [|c s]; simpl; [eauto|].
    destruct (cl c); [destruct (star cl k s)|]; eauto.
  - rewrite Hc. destruct IH as (e' & ->). eauto.
Qed.

Lemma once_sound cl k s e :
  once cl k s = Some e ->
  exists c rest, s = c :: rest /\ cl c = true /\ k rest = Some e.
Proof.
  destruct s as [|c s]; simpl; [discriminate|].
  destruct (cl c) eqn:Hc; [|discriminate]. eauto.
Qed.

Lemma exec_sound r : forall k s e,
  exec r k s = Some e ->
  exists p rest, s = p ++ rest /\ matches r p /\ k rest = Some e.
Proof.
  induction r as [|a r IH]; simpl; intros k s e H.
  - exists [], s. auto.
  - unfold atom_matches. destruct (quant a).
    + apply once_sound in H. destruct H as (c & rest & -> & Hc & H).
      apply IH in H. destruct H as (p & rest' & -> & Hm & Hk).
      exists (c :: p), rest'. split; [reflexivity|]. split; [|assumption].
      exists [c], p. auto.
    + apply star_sound in H. destruct H as (p1 & rest & -> & Hp1 & H).
      apply IH in H. destruct H as (p & rest' & -> & Hm & Hk).
      exists (p1 ++ p), rest'. rewrite app_assoc. split; [reflexivity|].
      split; [|assumption]. exists p1, p. auto.
    + apply once_sound in H. destruct H as (c & rest & -> & Hc & H).
      apply star_sound in H. destruct H as (p1 & rest1 & -> & Hp1 & H).
      apply IH in H. destruct H as (p & rest' & -> & Hm & Hk).
      exists (c :: p1 ++ p), rest'. split.
      { simpl. now rewrite app_assoc. }
      split; [|assumption]. exists (c :: p1), p. simpl.
      repeat split; auto. lia.
Qed.

Lemma exec_complete r : forall k p rest e,
  matches r p -> k rest = Some e ->
  exists e', exec r k (p ++ rest) = Some e'.
Proof.
  induction r as [|a r IH]; simpl; intros k p rest e Hm Hk.
  - subst p. simpl. eauto.
  - destruct Hm as (p1 & p2 & -> & [Hall Hq] & Hm).
    destruct (IH k p2 rest e Hm Hk) as (e1 & He1).
    rewrite <- app_assoc. destruct (quant a).
    + destruct p1 as [|c [|d p1]]; simpl in Hq; try discriminate.
      inversion Hall; subst. simpl. rewrite H1. eauto.
    + eapply star_complete; eauto.
    + destruct p1 as [|c p1]; simpl in Hq; [lia|].
      inversion Hall; subst. simpl. rewrite H1.
      eapply star_complete; eauto.
Qed.
End ExecFacts.

(** [test] decides the language of the pattern. *)
Lemma test_matches r s : test r s = true <-> matches r s.
Proof.
  unfold test. split.
  - destruct (exec r _ s) as [u|] eqn:H; [intros _|discriminate].
    apply exec_sound in H. destruct H as (p & rest & -> & Hm & Hk).
    destruct rest; [|discriminate]. now rewrite app_nil_r.
  - intros Hm.
    destruct (@exec_complete unit r
                (fun rest => match rest with [] => Some tt | _ => None end)
                s [] tt Hm eq_refl) as (e' & He).
    rewrite app_nil_r in He. now rewrite He.
Qed.

(** Once the characters of a match have been counted, dropping them one by
    one is dropping them at once. *)
Lemma replace_from_skip r by_ : forall s n,
  n <= length s ->
  replace_from r by_ n s = replace_from r by_ 0 (skipn n s).
Proof.
  induction s as [|c s IH]; intros n Hn.
  - simpl in Hn. now replace n with 0 by lia.
  - destruct n as [|n]; [reflexivity|].
    simpl in Hn. cbn [replace_from skipn]. apply IH. lia.
Qed.

(* ================================================================== *)
(** * Stripping tags *)
(* ================================================================== *)

Lemma after_gt_Some (s rest : str) :
  after_gt s = Some rest ->
  exists m, s = m ++ GT :: rest /\ ~ In GT m.
Proof.
  induction s as [|c s IH]; simpl; [discriminate|].
  destruct (N.eqb c GT) eqn:E.
  - apply N.eqb_eq in E. intros H. inversion H; subst.
    exists []. auto.
  - intros H. destruct (IH H) as (m & -> & Hm).
    exists (c :: m). split; [reflexivity|].
    intros [->|Hin]; [now rewrite N.eqb_refl in E|auto].
Qed.

Lemma after_gt_None (s : str) : after_gt s = None <-> ~ In GT s.
Proof.
  induction s as [|c s IH]; simpl; [tauto|].
  destruct (N.eqb c GT) eqn:E.
  - apply N.eqb_eq in E. split; [discriminate|]. intros H. exfalso. auto.
  - apply N.eqb_neq in E. rewrite IH. intuition congruence.
Qed.

(** A match of [/<[^>]*>/] starts at a [<] and ends at the first [>] after
    it. *)
Lemma match_at_tagRegex (s : str) :
  match_at tagRegex s =
  match s with
  | c :: r => if N.eqb c LT then after_gt r else None
  | [] => None
  end.
Proof.
  unfold match_at, tagRegex. cbn [exec class quant once].
  destruct s as [|c r]; [reflexivity|]. cbn [once].
  destruct (N.eqb c LT); [|reflexivity]. clear c.
  induction r as [|c r IH]; [reflexivity|].
  cbn [star after_gt once]. destruct (N.eqb c GT); cbn [negb].
  - reflexivity.
  - rewrite IH. now destruct (after_gt r).
Qed.

Lemma strip_tags_nil : strip_tags [] = [].
Proof. reflexivity. Qed.

Lemma strip_tags_cons (c : char) (s : str) :
  strip_tags (c :: s) =
  if N.eqb c LT
  then match after_gt s with
       | Some rest => strip_tags rest
       | None => c :: strip_tags s
       end
  else c :: strip_tags s.
Proof.
  unfold strip_tags, replace. cbn [replace_from].
  rewrite match_at_tagRegex.
  destruct (N.eqb c LT); [|reflexivity].
  destruct (after_gt s) as [rest|] eqn:E; [|reflexivity].
  apply after_gt_Some in E. destruct E as (m & -> & _).
  replace (length (c :: m ++ GT :: rest) - length rest)
    with (S (S (length m)))
    by (cbn [length]; rewrite length_app; cbn [length]; lia).
  cbn [app]. rewrite replace_from_skip
    by (rewrite length_app; cbn [length]; lia).
  f_equal. rewrite skipn_app, skipn_all2 by lia.
  replace (S (length m) - length m) with 1 by lia. reflexivity.
Qed.

(** Induction along the scan of [strip_tags]. *)
Lemma strip_tags_ind (P : str -> Prop) :
  P [] ->
  (forall c s, c <> LT -> P s -> P (c :: s)) ->
  (forall s, after_gt s = None -> P s -> P (LT :: s)) ->
  (forall s rest, after_gt s = Some rest -> P rest -> P (LT :: s)) ->
  forall s, P s.
Proof.
  intros Hnil Hother Hopen Htag s.
  remember (length s) as n eqn:Hn. revert s Hn.
  induction n as [n IH] using lt_wf_ind. intros s Hn.
  destruct s as [|c s]; [assumption|]. cbn [length] in Hn.
  destruct (N.eq_dec c LT) as [->|Hc].
  - destruct (after_gt s) as [rest|] eqn:E.
    + apply (Htag s rest E).
      destruct (after_gt_Some _ E) as (m & -> & _).
      apply (IH (length rest)); [|reflexivity].
      rewrite length_app in Hn. cbn [length] in Hn. lia.
    + apply (Hopen s E). apply (IH (length s)); [lia|reflexivity].
  - apply Hother; [assumption|].
    apply (IH (length s)); [lia|reflexivity].
Qed.

Lemma strip_tags_In (x : char) (s : str) :
  In x (strip_tags s) -> In x s.
Proof.
  induction s as [|c s Hc IH|s E IH|s rest E IH] using strip_tags_ind;
    rewrite ?strip_tags_cons, ?strip_tags_nil.
  - auto.
  - apply N.eqb_neq in Hc. rewrite Hc. simpl. tauto.
  - rewrite N.eqb_refl, E. simpl. tauto.
  - rewrite N.eqb_refl, E. intros H. apply IH in H.
    destruct (after_gt_Some _ E) as (m & -> & _).
    right. apply in_or_app. right. now right.
Qed.

Lemma tag_like_cons (c : char) (s : str) :
  tag_like (c :: s) -> (c = LT /\ In GT s) \/ tag_like s.
Proof.
  intros (a & m & b & E). destruct a as [|d a]; simpl in E.
  - inversion E; subst. left. split; [reflexivity|].
    apply in_or_app. right. now left.
  - inversion E; subst. right. now exists a, m, b.
Qed.

Lemma tag_like_infix (a t b : str) : tag_like t -> tag_like (a ++ t ++ b).
Proof.
  intros (a' & m & b' & ->). exists (a ++ a'), m, (b' ++ b).
  rewrite <- !app_assoc. simpl. now rewrite <- !app_assoc.
Qed.

Lemma tag_like_tail (c : char) (s : str) : tag_like s -> tag_like (c :: s).
Proof.
  intros (a & m & b & ->). now exists (c :: a), m, b.
Qed.

Lemma tag_like_open (s : str) : In GT s -> tag_like (LT :: s).
Proof.
  intros H. apply in_split in H. destruct H as (m & b & ->).
  now exists [], m, b.
Qed.

(** What [strip_tags] leaves has no [<] with a [>] after it. *)
Lemma strip_tags_no_tag (s : str) : ~ tag_like (strip_tags s).
Proof.
  induction s as [|c s Hc IH|s E IH|s rest E IH] using strip_tags_ind;
    rewrite ?strip_tags_cons, ?strip_tags_nil.
  - intros (a & m & b & E). now destruct a.
  - apply N.eqb_neq in Hc. rewrite Hc. intros H.
    apply tag_like_cons in H. apply N.eqb_neq in Hc. tauto.
  - rewrite N.eqb_refl, E. intros H. apply tag_like_cons in H.
    destruct H as [[_ H]|H]; [|tauto].
    apply strip_tags_In in H. now apply after_gt_None in E.
  - now rewrite N.eqb_refl, E.
Qed.

(** [strip_tags] changes nothing where there is nothing to strip. *)
Lemma strip_tags_clean (s : str) : ~ tag_like s -> strip_tags s = s.
Proof.
  induction s as [|c s Hc IH|s E IH|s rest E IH] using strip_tags_ind;
    rewrite ?strip_tags_cons, ?strip_tags_nil; intros Hs.
  - reflexivity.
  - apply N.eqb_neq in Hc. rewrite Hc, IH; [reflexivity|].
    intros H. apply Hs. now apply tag_like_tail.
  - rewrite N.eqb_refl, E, IH; [reflexivity|].
    intros H. apply Hs. now apply tag_like_tail.
  - exfalso. apply Hs. apply tag_like_open.
    destruct (after_gt_Some _ E) as (m & -> & _).
    apply in_or_app. right. now left.
Qed.

(** The pattern [/<[^>]*>/] finds a match exactly in the strings that are
    tag-like. *)
Lemma search_tagRegex (s : str) : search tagRegex s = true <-> tag_like s.
Proof.
  induction s as [|c s IH]; cbn [search]; rewrite match_at_tagRegex.
  - split; [discriminate|]. intros (a & m & b & E). now destruct a.
  - destruct (N.eqb c LT) eqn:Hc.
    + apply N.eqb_eq in Hc. subst c.
      destruct (after_gt s) as [rest|] eqn:E.
      * split; [intros _|reflexivity]. apply tag_like_open.
        destruct (after_gt_Some _ E) as (m & -> & _).
        apply in_or_app. right. now left.
      * rewrite IH. split.
        -- apply tag_like_tail.
        -- intros H. apply tag_like_cons in H.
           destruct H as [[_ H]|H]; [|assumption].
           now apply after_gt_None in E.
    + rewrite IH. split.
      * apply tag_like_tail.
      * intros H. apply tag_like_cons in H.
        destruct H as [[-> _]|H]; [|assumption].
        now rewrite N.eqb_refl in Hc.
Qed.

Lemma search_tagRegex_false (s : str) :
  search tagRegex s = false -> ~ tag_like s.
Proof.
  intros H Ht. apply search_tagRegex in Ht. congruence.
Qed.

Lemma sanitize_no_tag (s : str) : ~ tag_like (sanitize s).
Proof.
  unfold sanitize. intros H.
  destruct (trim_infix (strip_tags s)) as (a & b & E).
  apply (strip_tags_no_tag s). rewrite E. now apply tag_like_infix.
Qed.

Lemma sanitize_trimmed (s : str) : trimmed (sanitize s).
Proof. apply trim_trimmed. Qed.

Lemma sanitize_clean (s : str) :
  ~ tag_like s -> trimmed s -> sanitize s = s.
Proof.
  intros Ht Hs. unfold sanitize.
  rewrite (strip_tags_clean Ht). now apply trim_id.
Qed.

(* ================================================================== *)
(** * The email pattern *)
(* ================================================================== *)

Lemma not_space_at_spec (c : char) :
  not_space_at c = true <-> is_space c = false /\ c <> AT.
Proof.
  unfold not_space_at.
  rewrite negb_true_iff, orb_false_iff, N.eqb_neq. tauto.
Qed.

Lemma matches_char (x : char) (p : str) :
  atom_matches (Atom (fun c => N.eqb c x) Once) p <-> p = [x].
Proof.
  unfold atom_matches. cbn [class quant]. split.
  - intros [Hall Hlen]. destruct p as [|c [|d p]]; try discriminate.
    inversion Hall as [|? ? Hc _]; subst. apply N.eqb_eq in Hc. now subst.
  - intros ->. split; [|reflexivity].
    constructor; [apply N.eqb_refl|constructor].
Qed.

Lemma matches_plus (p : str) :
  atom_matches (Atom not_space_at Plus) p <->
  p <> [] /\ Forall (fun c => is_space c = false /\ c <> AT) p.
Proof.
  unfold atom_matches. cbn [class quant]. rewrite !Forall_forall. split.
  - intros [Hall Hlen]. split.
    + intros ->. simpl in Hlen. lia.
    + intros c Hc. now apply not_space_at_spec, Hall.
  - intros [Hne Hall]. split.
    + intros c Hc. now apply not_space_at_spec, Hall.
    + destruct p; [contradiction|simpl; lia].
Qed.

(** The pattern [emailRegex] accepts the strings of the shape
    [local@domain.tld], and no others. *)
Lemma emailRegex_shape (s : str) :
  test emailRegex s = true <-> email_shape s.
Proof.
  rewrite test_matches. unfold emailRegex, email_shape. cbn [matches]. split.
  - intros (l & r1 & -> & Hl & a & r2 & -> & Ha & d & r3 & -> & Hd
            & o & r4 & -> & Ho & t & r5 & -> & Ht & ->).
    apply matches_char in Ha, Ho. subst a o.
    apply matches_plus in Hl, Hd, Ht.
    destruct Hl as [Hl Hl'], Hd as [Hd Hd'], Ht as [Ht Ht'].
    exists l, d, t. rewrite app_nil_r. repeat split; try assumption.
    rewrite !Forall_app. auto.
  - intros (l & d & t & -> & Hl & Hd & Ht & Hall).
    rewrite !Forall_app in Hall. destruct Hall as (Hl' & Hd' & Ht').
    exists l, (AT :: d ++ DOT :: t). split; [reflexivity|].
    split; [now apply matches_plus|].
    exists [AT], (d ++ DOT :: t). split; [reflexivity|].
    split; [now apply matches_char|].
    exists d, (DOT :: t). split; [reflexivity|].
    split; [now apply matches_plus|].
    exists [DOT], t. split; [reflexivity|].
    split; [now apply matches_char|].
    exists t, []. split; [now rewrite app_nil_r|].
    split; [now apply matches_plus|reflexivity].
Qed.

Lemma emailRegex_not_shape (s : str) :
  test emailRegex s = false <-> ~ email_shape s.
Proof.
  rewrite <- emailRegex_shape. destruct (test emailRegex s); split; congruence.
Qed.

(* ================================================================== *)
(** * Replacing line breaks *)
(* ================================================================== *)

Lemma message_html_flat_map (m : str) :
  message_html m =
  flat_map (fun c => if N.eqb c NL then lit "<br>" else [c]) m.
Proof.
  unfold message_html, replace.
  induction m as [|c m IH]; [reflexivity|].
  cbn [replace_from flat_map].
  unfold match_at, newlineRegex. cbn [exec class quant once].
  destruct (N.eqb c NL).
  - replace (length (c :: m) - length m) with 1 by (cbn [length]; lia).
    f_equal. exact IH.
  - simpl. f_equal. exact IH.
Qed.

Lemma message_html_no_newline (m : str) : ~ In NL (message_html m).
Proof.
  rewrite message_html_flat_map, in_flat_map. intros (c & _ & H).
  destruct (N.eqb c NL) eqn:E.
  - vm_compute in H. intuition discriminate.
  - destruct H as [->|[]]. now rewrite N.eqb_refl in E.
Qed.

(* ================================================================== *)
(** * The stages of the handler *)
(* ================================================================== *)

Lemma bind_Ok (A B : Type) (c : outcome A) (k : A -> outcome B) (b : B) :
  bind c k = Ok b -> exists a, c = Ok a /\ k a = Ok b.
Proof. destruct c; simpl; [eauto|discriminate|discriminate]. Qed.

Lemma sanitize_call_Ok (v : value) (s : str) :
  sanitize_call v = Ok s -> exists s0, v = StringValue s0 /\ s = sanitize s0.
Proof.
  destruct v; simpl; try discriminate. intros H. inversion H. eauto.
Qed.

(** When sanitation goes through, the origin was let in, the body was
    parsed, each property held a string, and each field is the sanitized
    form of that string. *)
Lemma sanitized_Ok (context : EventContext) (contactData : ContactRequest) :
  sanitized context = Ok contactData ->
  origin_forbidden (headers_get (request context) (lit "Origin"))
    (split COMMA (ALLOWED_ORIGINS (env context))) = false /\
  exists raw n e p m,
    parse_body (request context) = Ok raw /\
    raw_name raw = StringValue n /\ raw_email raw = StringValue e /\
    raw_phone raw = StringValue p /\ raw_message raw = StringValue m /\
    contactData = {| name := sanitize n; email := sanitize e;
                     phone := sanitize p; message := sanitize m |}.
Proof.
  unfold sanitized.
  destruct (origin_forbidden _ _); [discriminate|]. intros H.
  split; [reflexivity|].
  apply bind_Ok in H. destruct H as (raw & Hraw & H).
  apply bind_Ok in H. destruct H as (n' & Hn & H).
  apply bind_Ok in H. destruct H as (e' & He & H).
  apply bind_Ok in H. destruct H as (p' & Hp & H).
  apply bind_Ok in H. destruct H as (m' & Hm & H).
  apply sanitize_call_Ok in Hn, He, Hp, Hm.
  destruct Hn as (n & Hn & ->), He as (e & He & ->),
           Hp as (p & Hp & ->), Hm as (m & Hm & ->).
  inversion H. exists raw, n, e, p, m. repeat split; assumption.
Qed.

(** A request that is not turned away at the origin check gets no 403. *)
Lemma sanitized_not_Return (context : EventContext) (r : Response) :
  origin_forbidden (headers_get (request context) (lit "Origin"))
    (split COMMA (ALLOWED_ORIGINS (env context))) = false ->
  sanitized context <> Return r.
Proof.
  unfold sanitized, parse_body. intros ->.
  destruct (is_json _).
  - destruct (json_body (request context)) as [doc|]; simpl; [|discriminate].
    unfold json_get. destruct doc; simpl; try discriminate;
      repeat match goal with
      | |- context [member_get ?k ?l] => destruct (member_get k l); simpl
      | |- context [sanitize_call ?v] => destruct v; simpl
      | |- context [json_value ?v] => destruct v; simpl
      end; discriminate.
  - destruct (formData (request context)) as [fd|]; simpl; [|discriminate].
    repeat match goal with
    | |- context [sanitize_call ?v] => destruct v; simpl
    end; discriminate.
Qed.

Lemma validate_missing (contactData : ContactRequest) :
  name contactData = [] \/ email contactData = [] \/ message contactData = [] ->
  validate contactData =
  Return (text_response
            (lit "Missing required fields: name, email, message") 400).
Proof.
  unfold validate. intros [H|[H|H]]; rewrite H; cbn [falsy];
    rewrite ?orb_true_r; reflexivity.
Qed.

Lemma falsy_false (s : str) : s <> [] -> falsy s = false.
Proof. destruct s; [contradiction|reflexivity]. Qed.

Lemma validate_present (contactData : ContactRequest) :
  name contactData <> [] -> email contactData <> [] ->
  message contactData <> [] ->
  validate contactData =
  if negb (test emailRegex (email contactData)) then
    Return (text_response (lit "Invalid email format") 400)
  else if (100 <? length (name contactData))
          || (255 <? length (email contactData))
          || (5000 <? length (message contactData)) then
    Return (text_response (lit "Input too long") 400)
  else Ok tt.
Proof.
  intros Hn He Hm. unfold validate.
  now rewrite (falsy_false Hn), (falsy_false He), (falsy_false Hm).
Qed.

(** What [validate] lets through satisfies each rule. *)
Lemma validate_Ok (contactData : ContactRequest) :
  validate contactData = Ok tt ->
  name contactData <> [] /\ email contactData <> [] /\
  message contactData <> [] /\
  test emailRegex (email contactData) = true /\
  length (name contactData) <= 100 /\
  length (email contactData) <= 255 /\
  length (message contactData) <= 5000.
Proof.
  unfold validate.
  destruct (name contactData) as [|c1 n]; [discriminate|].
  destruct (email contactData) as [|c2 e]; [discriminate|].
  destruct (message contactData) as [|c3 m]; [discriminate|].
  cbn [falsy orb].
  destruct (test emailRegex (c2 :: e)); [|discriminate]. cbn [negb].
  destruct (100 <? length (c1 :: n)) eqn:H1; [discriminate|].
  destruct (255 <? length (c2 :: e)) eqn:H2; [discriminate|].
  destruct (5000 <? length (c3 :: m)) eqn:H3; [discriminate|].
  apply Nat.ltb_ge in H1, H2, H3. intros _.
  repeat split; try discriminate; assumption.
Qed.

(** A validation error is the answer of the handler, and nothing is
    logged. *)
Lemma served_Return fetch (context : EventContext)
  (contactData : ContactRequest) (r : Response) :
  sanitized context = Ok contactData ->
  validate contactData = Return r ->
  onRequestPost fetch context = {| response := r; console_error := None |}.
Proof.
  intros Hs Hv. unfold onRequestPost, try_block, before_fetch.
  rewrite Hs. cbn [bind]. rewrite Hv. reflexivity.
Qed.

Lemma before_fetch_valid (context : EventContext)
  (contactData : ContactRequest) :
  sanitized context = Ok contactData ->
  validate contactData = Ok tt ->
  before_fetch context =
  Ok (email_call (env context) contactData (metadata (request context))).
Proof.
  intros Hs Hv. unfold before_fetch. rewrite Hs. cbn [bind]. now rewrite Hv.
Qed.

Lemma before_fetch_Ok (context : EventContext) (call : FetchCall) :
  before_fetch context = Ok call ->
  exists contactData,
    sanitized context = Ok contactData /\
    validate contactData = Ok tt /\
    call = email_call (env context) contactData (metadata (request context)).
Proof.
  unfold before_fetch. intros H.
  apply bind_Ok in H. destruct H as (cd & Hs & H).
  apply bind_Ok in H. destruct H as ([] & Hv & H).
  inversion H. eauto.
Qed.

Lemma success_response_eq :
  json_response
    [ (lit "success", JSON.LBoolean true);
      (lit "message", JSON.LString (lit "Email sent successfully")) ] 200
  = success_response.
Proof. vm_compute. reflexivity. Qed.

Lemma failure_response_eq :
  json_response
    [ (lit "success", JSON.LBoolean false);
      (lit "message", JSON.LString (lit "Failed to send email")) ] 500
  = failure_response.
Proof. vm_compute. reflexivity. Qed.

(** The [catch] block. *)
Lemma served_Throw fetch (context : EventContext) (error : exn) :
  try_block fetch context = Throw error ->
  onRequestPost fetch context =
  {| response := failure_response; console_error := Some error |}.
Proof.
  intros H. unfold onRequestPost. rewrite H. now rewrite failure_response_eq.
Qed.

(** The statuses the handler can answer with. *)
Lemma status_cases fetch (context : EventContext) :
  let st := status (response (onRequestPost fetch context)) in
  (st = 403%N /\
   origin_forbidden (headers_get (request context) (lit "Origin"))
     (split COMMA (ALLOWED_ORIGINS (env context))) = true)
  \/ st = 400%N \/ st = 200%N \/ st = 500%N.
Proof.
  cbv zeta. unfold onRequestPost, try_block, before_fetch.
  destruct (sanitized context) as [cd|r|e] eqn:Hs; cbn [bind].
  - unfold validate.
    repeat match goal with
    | |- context [if ?b then _ else _] => destruct b
    end; cbn [bind response status text_response]; auto.
    unfold after_fetch. destruct (fetch _) as [[[]]|]; simpl; auto.
  - left.
    destruct (origin_forbidden (headers_get (request context) (lit "Origin"))
                (split COMMA (ALLOWED_ORIGINS (env context)))) eqn:Ho.
    + unfold sanitized in Hs. rewrite Ho in Hs. inversion Hs. auto.
    + exfalso. exact (sanitized_not_Return context Ho Hs).
  - simpl. auto.
Qed.

(* ================================================================== *)
(** * The origin check *)
(* ================================================================== *)

Lemma origin_forbidden_spec (o : str) (allowedDomains : list str) :
  o <> [] ->
  (origin_forbidden (Some o) allowedDomains = true <-> ~ In o allowedDomains).
Proof.
  intros Ho. destruct o as [|c o]; [contradiction|]. cbn [origin_forbidden].
  rewrite negb_true_iff, <- array_includes_In.
  destruct (array_includes allowedDomains (c :: o)); split; congruence.
Qed.

Lemma forbidden_served fetch (context : EventContext) :
  origin_forbidden (headers_get (request context) (lit "Origin"))
    (split COMMA (ALLOWED_ORIGINS (env context))) = true ->
  before_fetch context = Return (text_response (lit "Forbidden") 403) /\
  onRequestPost fetch context =
  {| response := text_response (lit "Forbidden") 403; console_error := None |}.
Proof.
  intros H. unfold onRequestPost, try_block, before_fetch, sanitized.
  rewrite H. split; reflexivity.
Qed.

Lemma not_forbidden_status fetch (context : EventContext) :
  origin_forbidden (headers_get (request context) (lit "Origin"))
    (split COMMA (ALLOWED_ORIGINS (env context))) = false ->
  status (response (onRequestPost fetch context)) <> 403%N.
Proof.
  intros H. destruct (status_cases fetch context) as [[_ H']|[E|[E|E]]].
  - congruence.
  - rewrite E. discriminate.
  - rewrite E. discriminate.
  - rewrite E. discriminate.
Qed.

(** The claim C3 fails as it is worded: the response to a foreign origin
    has status 403, but its body is the text [Forbidden], not an empty body;
    and a request that carries an [Origin] header with an empty value, which
    is no member of the allow-list, is let in. *)
Lemma forbidden_has_a_body_and_empty_origin_passes :
  (status (response
     (onRequestPost provider_accepts
        (context_of
           (json_request (origin_header (lit "https://evil.example"))
              (JObject ann_json))))) = 403%N /\
   body (response
     (onRequestPost provider_accepts
        (context_of
           (json_request (origin_header (lit "https://evil.example"))
              (JObject ann_json))))) = lit "Forbidden" /\
   lit "Forbidden" <> []) /\
  (headers_get (json_request (origin_header []) (JObject ann_json))
     (lit "Origin") = Some [] /\
   ~ In [] (split COMMA (ALLOWED_ORIGINS site_env)) /\
   onRequestPost provider_accepts
     (context_of (json_request (origin_header []) (JObject ann_json))) =
   {| response := success_response; console_error := None |}).
Proof.
  split; [split; [|split]|split; [|split]].
  - vm_compute. reflexivity.
  - vm_compute. reflexivity.
  - discriminate.
  - vm_compute. reflexivity.
  - vm_compute. intros [H|[]]. discriminate H.
  - vm_compute. reflexivity.
Qed.

(** C3, amended. A request that carries an [Origin] header whose value is
    not empty and is no member of the comma-separated allow-list is turned
    away at once - before the body is read and without any outbound call -
    with status 403 and the plain-text body [Forbidden].  A request without
    an [Origin] header never gets a 403. *)
Theorem origin_check fetch (context : EventContext) :
  (forall o,
      headers_get (request context) (lit "Origin") = Some o ->
      o <> [] ->
      ~ In o (split COMMA (ALLOWED_ORIGINS (env context))) ->
      before_fetch context = Return (text_response (lit "Forbidden") 403) /\
      onRequestPost fetch context =
      {| response :=
           {| body := lit "Forbidden"; status := 403; response_headers := [] |};
         console_error := None |}) /\
  (headers_get (request context) (lit "Origin") = None ->
   status (response (onRequestPost fetch context)) <> 403%N).
Proof.
  split.
  - intros o Hh Ho Hin. apply forbidden_served. rewrite Hh.
    now apply origin_forbidden_spec.
  - intros Hh. apply not_forbidden_status. now rewrite Hh.
Qed.

Lemma origin_check_witness :
  onRequestPost provider_accepts
    (context_of
       (json_request (origin_header (lit "https://evil.example"))
          (JObject ann_json))) =
  {| response :=
       {| body := lit "Forbidden"; status := 403; response_headers := [] |};
     console_error := None |} /\
  status (response
    (onRequestPost provider_accepts
       (context_of (json_request [] (JObject ann_json))))) <> 403%N.
Proof.
  split.
  - refine (proj2 (proj1 (origin_check provider_accepts _)
                     (lit "https://evil.example") _ _ _)).
    + vm_compute. reflexivity.
    + discriminate.
    + vm_compute. intros [H|[]]. discriminate H.
  - apply (proj2 (origin_check provider_accepts _)).
    vm_compute. reflexivity.
Defined.

(** The claim C10 fails as it is worded.  With the allow-list
    [https://site.example, https://site.example] the second segment carries
    a blank, and the origin [https://site.example], which is that segment
    without the blank, is let in because the first segment equals it.  With
    the allow-list [https://site.example, ] the second segment is a blank,
    and the empty origin, which is that segment without the blank, is let
    in as well. *)
Lemma padded_entry_is_not_always_rejected :
  (In (lit " https://site.example")
      (split COMMA (lit "https://site.example, https://site.example")) /\
   trim (lit " https://site.example") = lit "https://site.example" /\
   onRequestPost provider_accepts
     {| request := json_request (origin_header (lit "https://site.example"))
                     (JObject ann_json);
        env := env_allowing (lit "https://site.example, https://site.example") |}
   = {| response := success_response; console_error := None |}) /\
  (In (lit " ") (split COMMA (lit "https://site.example, ")) /\
   trim (lit " ") = [] /\
   onRequestPost provider_accepts
     {| request := json_request (origin_header []) (JObject ann_json);
        env := env_allowing (lit "https://site.example, ") |}
   = {| response := success_response; console_error := None |}).
Proof.
  split; (split; [|split]).
  - vm_compute. auto.
  - vm_compute. reflexivity.
  - vm_compute. reflexivity.
  - vm_compute. auto.
  - vm_compute. reflexivity.
  - vm_compute. reflexivity.
Qed.

(** C10, amended. Membership in the allow-list is exact equality of the
    [Origin] value with one of the segments that splitting
    [ALLOWED_ORIGINS] at the commas yields, without trimming, case folding
    or any other normalization: a request with a non-empty [Origin] gets the
    403 exactly when no segment equals that value.  In particular, when a
    segment carries whitespace, the non-empty origin that is this segment
    without the whitespace is rejected with 403 unless another segment
    equals it exactly. *)
Theorem allow_list_is_exact fetch (context : EventContext) (o : str) :
  headers_get (request context) (lit "Origin") = Some o ->
  o <> [] ->
  (status (response (onRequestPost fetch context)) = 403%N <->
   ~ In o (split COMMA (ALLOWED_ORIGINS (env context)))) /\
  (forall segment,
      In segment (split COMMA (ALLOWED_ORIGINS (env context))) ->
      trim segment <> segment ->
      o = trim segment ->
      (forall other,
          In other (split COMMA (ALLOWED_ORIGINS (env context))) ->
          other <> segment -> other <> o) ->
      onRequestPost fetch context =
      {| response := text_response (lit "Forbidden") 403;
         console_error := None |}).
Proof.
  intros Hh Ho.
  assert (Hrej : ~ In o (split COMMA (ALLOWED_ORIGINS (env context))) ->
                 onRequestPost fetch context =
                 {| response := text_response (lit "Forbidden") 403;
                    console_error := None |}).
  { intros Hin. apply forbidden_served. rewrite Hh.
    now apply origin_forbidden_spec. }
  split; [split|].
  - intros Hst.
    destruct (origin_forbidden (headers_get (request context) (lit "Origin"))
                (split COMMA (ALLOWED_ORIGINS (env context)))) eqn:Hf.
    + rewrite Hh in Hf. now apply origin_forbidden_spec in Hf.
    + exfalso. exact (not_forbidden_status fetch context Hf Hst).
  - intros Hin. now rewrite (Hrej Hin).
  - intros segment _ Hpad -> Hothers. apply Hrej. intros Hin.
    apply (Hothers (trim segment) Hin Hpad). reflexivity.
Qed.

Lemma allow_list_is_exact_witness :
  onRequestPost provider_accepts
    {| request := json_request (origin_header (lit "https://www.site.example"))
                    (JObject ann_json);
       env := env_allowing
                (lit "https://site.example, https://www.site.example") |}
  = {| response := text_response (lit "Forbidden") 403;
       console_error := None |}.
Proof.
  refine (proj2 (@allow_list_is_exact provider_accepts
                   {| request := json_request
                                   (origin_header (lit "https://www.site.example"))
                                   (JObject ann_json);
                      env := env_allowing
                               (lit "https://site.example, https://www.site.example") |}
                   (lit "https://www.site.example") _ _)
            (lit " https://www.site.example") _ _ _ _).
  - vm_compute. reflexivity.
  - discriminate.
  - vm_compute. auto.
  - vm_compute. discriminate.
  - vm_compute. reflexivity.
  - intros other [<-|[<-|[]]] Hne.
    + vm_compute. discriminate.
    + now contradiction Hne.
Defined.

(* ================================================================== *)
(** * Required fields, and fields that are absent *)
(* ================================================================== *)

Lemma parse_body_json_object (request : Request) members :
  is_json (headers_get request (lit "content-type")) = true ->
  json_body request = Resolved (JObject members) ->
  parse_body request =
  Ok {| raw_name := member_value (lit "name") members;
        raw_email := member_value (lit "email") members;
        raw_phone := member_value (lit "phone") members;
        raw_message := member_value (lit "message") members |}.
Proof.
  intros Hj Hb. unfold parse_body. now rewrite Hj, Hb.
Qed.

Lemma parse_body_form (request : Request) fd :
  is_json (headers_get request (lit "content-type")) = false ->
  formData request = Resolved fd ->
  parse_body request =
  Ok {| raw_name := form_field fd (lit "name");
        raw_email := form_field fd (lit "email");
        raw_phone := form_field fd (lit "phone");
        raw_message := form_field fd (lit "message") |}.
Proof.
  intros Hj Hb. unfold parse_body. now rewrite Hj, Hb.
Qed.

Lemma member_value_absent key members :
  member_get key members = None -> member_value key members = Undefined.
Proof. unfold member_value. now intros ->. Qed.

Lemma form_field_absent fd key :
  formData_get fd key = None -> form_field fd key = StringValue [].
Proof. unfold form_field. now intros ->. Qed.

(** A property that is [undefined] makes its call of [sanitize] throw. *)
Lemma sanitized_undefined (context : EventContext) (raw : RawContact) :
  origin_forbidden (headers_get (request context) (lit "Origin"))
    (split COMMA (ALLOWED_ORIGINS (env context))) = false ->
  parse_body (request context) = Ok raw ->
  raw_name raw = Undefined \/ raw_email raw = Undefined \/
  raw_phone raw = Undefined \/ raw_message raw = Undefined ->
  sanitized context = Throw TypeError.
Proof.
  intros Ho Hp H. unfold sanitized. rewrite Ho, Hp. cbn [bind].
  destruct raw as [n e p m]. cbn [raw_name raw_email raw_phone raw_message] in *.
  destruct n, e, p, m; cbn [sanitize_call bind]; try reflexivity;
    exfalso; intuition discriminate.
Qed.

Lemma sanitized_strings (context : EventContext) (raw : RawContact) n e p m :
  origin_forbidden (headers_get (request context) (lit "Origin"))
    (split COMMA (ALLOWED_ORIGINS (env context))) = false ->
  parse_body (request context) = Ok raw ->
  raw_name raw = StringValue n -> raw_email raw = StringValue e ->
  raw_phone raw = StringValue p -> raw_message raw = StringValue m ->
  sanitized context =
  Ok {| name := sanitize n; email := sanitize e;
        phone := sanitize p; message := sanitize m |}.
Proof.
  intros Ho Hp Hn He Hph Hm. unfold sanitized.
  rewrite Ho, Hp. cbn [bind]. now rewrite Hn, He, Hph, Hm.
Qed.

Lemma served_sanitized_Throw fetch (context : EventContext) (error : exn) :
  sanitized context = Throw error ->
  onRequestPost fetch context =
  {| response := failure_response; console_error := Some error |}.
Proof.
  intros H. apply served_Throw. unfold try_block, before_fetch. now rewrite H.
Qed.

(** C1. A submission whose name, email or message is empty after
    sanitation is answered 400 with the text that names the three required
    fields; this covers a form-encoded body that lacks the field.  A JSON
    body that lacks the field is not answered that way: the property is
    [undefined], [sanitize] throws on it, and the answer is the 500 of the
    [catch] block. *)
Theorem missing_required_field fetch (context : EventContext) :
  origin_forbidden (headers_get (request context) (lit "Origin"))
    (split COMMA (ALLOWED_ORIGINS (env context))) = false ->
  (forall contactData,
      sanitized context = Ok contactData ->
      name contactData = [] \/ email contactData = [] \/
      message contactData = [] ->
      onRequestPost fetch context =
      {| response :=
           text_response
             (lit "Missing required fields: name, email, message") 400;
         console_error := None |}) /\
  (forall members,
      is_json (headers_get (request context) (lit "content-type")) = true ->
      json_body (request context) = Resolved (JObject members) ->
      member_get (lit "name") members = None \/
      member_get (lit "email") members = None \/
      member_get (lit "message") members = None ->
      onRequestPost fetch context =
      {| response := failure_response; console_error := Some TypeError |}).
Proof.
  intros Ho. split.
  - intros cd Hs H. apply (served_Return fetch context Hs).
    now apply validate_missing.
  - intros members Hj Hb H. apply served_sanitized_Throw.
    apply (sanitized_undefined context Ho (parse_body_json_object _ Hj Hb)).
    cbn [raw_name raw_email raw_phone raw_message].
    destruct H as [H|[H|H]]; rewrite (member_value_absent _ _ H); auto.
Qed.

Lemma missing_required_field_witness :
  onRequestPost provider_accepts
    (context_of (form_request [] (without (lit "name") ann_form))) =
  {| response :=
       text_response (lit "Missing required fields: name, email, message") 400;
     console_error := None |} /\
  onRequestPost provider_accepts
    (context_of (json_request [] (JObject (without (lit "name") ann_json)))) =
  {| response := failure_response; console_error := Some TypeError |}.
Proof.
  split.
  - refine (proj1 (@missing_required_field provider_accepts
                     (context_of (form_request [] (without (lit "name") ann_form)))
                     _)
              {| name := []; email := lit "a@b.co"; phone := lit "555 0100";
                 message := lit "hi" |} _ _).
    + vm_compute. reflexivity.
    + vm_compute. reflexivity.
    + left. reflexivity.
  - refine (proj2 (@missing_required_field provider_accepts
                     (context_of
                        (json_request [] (JObject (without (lit "name") ann_json))))
                     _)
              (without (lit "name") ann_json) _ _ _).
    + vm_compute. reflexivity.
    + vm_compute. reflexivity.
    + reflexivity.
    + left. vm_compute. reflexivity.
Defined.

(** C8. Leaving out the phone field is harmless in a form-encoded body:
    the field reads as the empty string and an otherwise valid submission
    goes on to the outbound call; validation never looks at the phone.  In
    a JSON body it is not harmless: the property is
    [undefined], [sanitize] throws on it, and the answer is the 500 of the
    [catch] block, however good the other fields are. *)
Theorem omitted_phone fetch (context : EventContext) :
  origin_forbidden (headers_get (request context) (lit "Origin"))
    (split COMMA (ALLOWED_ORIGINS (env context))) = false ->
  (forall fd n e m,
      is_json (headers_get (request context) (lit "content-type")) = false ->
      formData (request context) = Resolved fd ->
      formData_get fd (lit "phone") = None ->
      form_field fd (lit "name") = StringValue n ->
      form_field fd (lit "email") = StringValue e ->
      form_field fd (lit "message") = StringValue m ->
      validate {| name := sanitize n; email := sanitize e; phone := [];
                  message := sanitize m |} = Ok tt ->
      before_fetch context =
      Ok (email_call (env context)
            {| name := sanitize n; email := sanitize e; phone := [];
               message := sanitize m |}
            (metadata (request context)))) /\
  (forall contactData p,
      validate {| name := name contactData; email := email contactData;
                  phone := p; message := message contactData |}
      = validate contactData) /\
  (forall members,
      is_json (headers_get (request context) (lit "content-type")) = true ->
      json_body (request context) = Resolved (JObject members) ->
      member_get (lit "phone") members = None ->
      onRequestPost fetch context =
      {| response := failure_response; console_error := Some TypeError |}).
Proof.
  intros Ho. split; [|split; [reflexivity|]].
  - intros fd n e m Hj Hb Hp Hn He Hm Hv.
    apply before_fetch_valid; [|exact Hv].
    apply (sanitized_strings context Ho (parse_body_form _ Hj Hb)
             (n := n) (e := e) (p := []) (m := m)); cbn; try assumption.
    now apply form_field_absent.
  - intros members Hj Hb H. apply served_sanitized_Throw.
    apply (sanitized_undefined context Ho (parse_body_json_object _ Hj Hb)).
    cbn [raw_name raw_email raw_phone raw_message].
    rewrite (member_value_absent _ _ H). auto.
Qed.

Lemma omitted_phone_witness :
  before_fetch (context_of (form_request [] (without (lit "phone") ann_form))) =
  Ok (email_call site_env
        {| name := lit "Ann"; email := lit "a@b.co"; phone := [];
           message := lit "hi" |}
        (metadata (form_request [] (without (lit "phone") ann_form)))) /\
  onRequestPost provider_accepts
    (context_of (json_request [] (JObject (without (lit "phone") ann_json)))) =
  {| response := failure_response; console_error := Some TypeError |}.
Proof.
  split.
  - refine (proj1 (@omitted_phone provider_accepts
                     (context_of
                        (form_request [] (without (lit "phone") ann_form))) _)
              (without (lit "phone") ann_form)
              (lit "Ann") (lit "a@b.co") (lit "hi") _ _ _ _ _ _ _);
      vm_compute; reflexivity.
  - refine (proj2 (proj2 (@omitted_phone provider_accepts
                     (context_of
                        (json_request [] (JObject (without (lit "phone") ann_json))))
                     _))
              (without (lit "phone") ann_json) _ _ _);
      vm_compute; reflexivity.
Defined.

(* ================================================================== *)
(** * Sanitation *)
(* ================================================================== *)

(** C2. Whatever the input, the sanitized string holds no HTML-tag-like
    substring (no [<] with a [>] after it, so that the pattern [/<[^>]*>/]
    finds nothing in it); when the input is already clean
    (no tag-like substring, no whitespace at either end) sanitizing returns
    it unchanged; hence sanitizing twice is sanitizing once. *)
Theorem sanitize_strips_and_is_idempotent (s : str) :
  ~ tag_like (sanitize s) /\
  search tagRegex (sanitize s) = false /\
  (~ tag_like s -> trimmed s -> sanitize s = s) /\
  sanitize (sanitize s) = sanitize s.
Proof.
  split; [apply sanitize_no_tag|]. split.
  { destruct (search tagRegex (sanitize s)) eqn:E; [|reflexivity].
    apply search_tagRegex in E. now apply sanitize_no_tag in E. }
  split; [apply sanitize_clean|].
  apply sanitize_clean; [apply sanitize_no_tag|apply sanitize_trimmed].
Qed.

Lemma sanitize_clean_witness :
  ~ tag_like (lit "Ann Lee <ann@lee.example") /\
  trimmed (lit "Ann Lee <ann@lee.example") /\
  sanitize (lit "Ann Lee <ann@lee.example") = lit "Ann Lee <ann@lee.example".
Proof.
  assert (H1 : ~ tag_like (lit "Ann Lee <ann@lee.example"))
    by (apply search_tagRegex_false; vm_compute; reflexivity).
  assert (H2 : trimmed (lit "Ann Lee <ann@lee.example"))
    by (apply trimmedb_true; vm_compute; reflexivity).
  split; [exact H1|]. split; [exact H2|].
  exact (proj1 (proj2 (proj2 (sanitize_strips_and_is_idempotent _))) H1 H2).
Defined.

(* ================================================================== *)
(** * Validation *)
(* ================================================================== *)

Lemma text_response_inj (a b : str) (x y : N) :
  text_response a x = text_response b y -> a = b /\ x = y.
Proof. intros H. inversion H. auto. Qed.

(** C5. The email pattern accepts exactly the strings made of one or more
    characters that are neither whitespace nor [@], an [@], one or more
    such characters, a dot, and one or more such characters.  A submission
    that reaches the email check with a sanitized email outside this shape
    is answered 400 [Invalid email format]; [not-an-email] is outside the
    shape, and [a@b.co] is inside it and is never answered that way. *)
Theorem email_shape_is_validated :
  (forall s, test emailRegex s = true <-> email_shape s) /\
  (forall fetch context contactData,
      sanitized context = Ok contactData ->
      name contactData <> [] ->
      email contactData <> [] ->
      message contactData <> [] ->
      ~ email_shape (email contactData) ->
      onRequestPost fetch context =
      {| response := text_response (lit "Invalid email format") 400;
         console_error := None |}) /\
  ~ email_shape (lit "not-an-email") /\
  email_shape (lit "a@b.co") /\
  (forall contactData,
      email contactData = lit "a@b.co" ->
      validate contactData <>
      Return (text_response (lit "Invalid email format") 400)).
Proof.
  split; [exact emailRegex_shape|]. split; [|split; [|split]].
  - intros fetch context cd Hs Hn He Hm Hshape.
    apply (served_Return fetch context Hs).
    rewrite (validate_present cd Hn He Hm).
    apply emailRegex_not_shape in Hshape. now rewrite Hshape.
  - apply emailRegex_not_shape. vm_compute. reflexivity.
  - apply emailRegex_shape. vm_compute. reflexivity.
  - intros cd He. unfold validate. rewrite He.
    replace (test emailRegex (lit "a@b.co")) with true
      by (vm_compute; reflexivity).
    cbn [negb].
    repeat match goal with
    | |- context [if ?b then _ else _] => destruct b
    end; try discriminate;
      intros H; injection H as H; apply text_response_inj in H;
      destruct H as [H _]; vm_compute in H; discriminate H.
Qed.

Lemma email_shape_witness :
  onRequestPost provider_accepts
    (context_of
       (json_request []
          (JObject (with_field (lit "email") (JString (lit "not-an-email"))
                      ann_json)))) =
  {| response := text_response (lit "Invalid email format") 400;
     console_error := None |}.
Proof.
  apply (proj1 (proj2 email_shape_is_validated)) with
    (contactData := {| name := lit "Ann"; email := lit "not-an-email";
                       phone := lit "555 0100"; message := lit "hi" |}).
  - vm_compute. reflexivity.
  - discriminate.
  - discriminate.
  - discriminate.
  - exact (proj1 (proj2 (proj2 email_shape_is_validated))).
Defined.

(** C6. The length limits apply to the sanitized values.  For a submission
    that reaches the length check: when the name is longer than 100, the
    email longer than 255 or the message longer than 5000, the answer is 400
    [Input too long]; otherwise the handler goes on to the outbound call.
    A message of length 5001 is rejected, one of length 5000 is accepted. *)
Theorem length_limits fetch (context : EventContext)
  (contactData : ContactRequest) :
  sanitized context = Ok contactData ->
  name contactData <> [] ->
  email contactData <> [] ->
  message contactData <> [] ->
  test emailRegex (email contactData) = true ->
  (exists n e p m,
      contactData = {| name := sanitize n; email := sanitize e;
                       phone := sanitize p; message := sanitize m |}) /\
  (100 < length (name contactData) \/
   255 < length (email contactData) \/
   5000 < length (message contactData) ->
   onRequestPost fetch context =
   {| response := text_response (lit "Input too long") 400;
      console_error := None |}) /\
  (length (name contactData) <= 100 ->
   length (email contactData) <= 255 ->
   length (message contactData) <= 5000 ->
   before_fetch context =
   Ok (email_call (env context) contactData (metadata (request context)))) /\
  (length (message contactData) = 5000 + 1 ->
   onRequestPost fetch context =
   {| response := text_response (lit "Input too long") 400;
      console_error := None |}) /\
  (length (name contactData) <= 100 ->
   length (email contactData) <= 255 ->
   length (message contactData) = 5000 ->
   before_fetch context =
   Ok (email_call (env context) contactData (metadata (request context)))).
Proof.
  intros Hs Hn He Hm Ht.
  assert (Hlong :
    100 < length (name contactData) \/
    255 < length (email contactData) \/
    5000 < length (message contactData) ->
    onRequestPost fetch context =
    {| response := text_response (lit "Input too long") 400;
       console_error := None |}).
  { intros H. apply (served_Return fetch context Hs).
    rewrite (validate_present contactData Hn He Hm), Ht. cbn [negb].
    replace ((100 <? length (name contactData))
             || (255 <? length (email contactData))
             || (5000 <? length (message contactData))) with true;
      [reflexivity|].
    symmetry. rewrite !orb_true_iff, !Nat.ltb_lt. tauto. }
  assert (Hfit :
    length (name contactData) <= 100 ->
    length (email contactData) <= 255 ->
    length (message contactData) <= 5000 ->
    before_fetch context =
    Ok (email_call (env context) contactData (metadata (request context)))).
  { intros H1 H2 H3. apply (before_fetch_valid context Hs).
    rewrite (validate_present contactData Hn He Hm), Ht. cbn [negb].
    apply Nat.ltb_ge in H1, H2, H3. now rewrite H1, H2, H3. }
  split.
  { destruct (sanitized_Ok context Hs) as (_ & raw & n & e & p & m & H).
    exists n, e, p, m. apply H. }
  split; [exact Hlong|]. split; [exact Hfit|]. split.
  - intros H. apply Hlong. lia.
  - intros H1 H2 H3. apply Hfit; lia.
Qed.

Lemma length_limits_witness :
  onRequestPost provider_accepts
    (context_of
       (json_request []
          (JObject (with_field (lit "message") (JString (letters (5000 + 1)))
                      ann_json)))) =
  {| response := text_response (lit "Input too long") 400;
     console_error := None |} /\
  before_fetch
    (context_of
       (json_request []
          (JObject (with_field (lit "message")
                      (JString (lit "  " ++ letters 5000 ++ lit "<br> "))
                      ann_json)))) =
  Ok (email_call site_env
        {| name := lit "Ann"; email := lit "a@b.co";
           phone := lit "555 0100"; message := letters 5000 |}
        (metadata
           (json_request []
              (JObject (with_field (lit "message")
                          (JString (lit "  " ++ letters 5000 ++ lit "<br> "))
                          ann_json))))).
Proof.
  split.
  - refine (proj1 (proj2 (proj2 (proj2
      (@length_limits provider_accepts _
         {| name := lit "Ann"; email := lit "a@b.co";
            phone := lit "555 0100"; message := letters (5000 + 1) |}
         _ _ _ _ _)))) _).
    + vm_compute. reflexivity.
    + discriminate.
    + discriminate.
    + discriminate.
    + vm_compute. reflexivity.
    + vm_compute. reflexivity.
  - refine (proj2 (proj2 (proj2 (proj2
      (@length_limits provider_accepts _
         {| name := lit "Ann"; email := lit "a@b.co";
            phone := lit "555 0100"; message := letters 5000 |}
         _ _ _ _ _)))) _ _ _).
    + vm_compute. reflexivity.
    + discriminate.
    + discriminate.
    + discriminate.
    + vm_compute. reflexivity.
    + vm_compute. lia.
    + vm_compute. lia.
    + vm_compute. reflexivity.
Defined.

(* ================================================================== *)
(** * The outbound call *)
(* ================================================================== *)

Lemma infix_concat (x : str) (l : list str) : In x l -> infix x (concat l).
Proof.
  intros H. apply in_split in H. destruct H as (l1 & l2 & ->).
  exists (concat l1), (concat l2). now rewrite concat_app.
Qed.

Ltac in_list := cbn [In]; repeat (first [left; reflexivity | right]).

(** C7. For a submission that has passed validation the handler calls the
    provider with a JSON body whose [from] is the fixed address
    [contact@yourdomain.com], whose [to] is [TO_EMAIL], whose [subject] ends
    with the sanitized name, whose [reply_to] is the sanitized email, and
    whose [html] holds the sanitized name, email, phone and message and the
    eight connection details; in the message every line break has become
    [<br>]. *)
Theorem outbound_call (context : EventContext) (contactData : ContactRequest) :
  sanitized context = Ok contactData ->
  validate contactData = Ok tt ->
  let meta := metadata (request context) in
  let h := html contactData meta in
  exists call,
    before_fetch context = Ok call /\
    url call = lit "https://api.resend.com/emails" /\
    method call = lit "POST" /\
    fetch_headers call =
      [ (lit "Authorization", lit "Bearer " ++ RESEND_API_KEY (env context));
        (lit "Content-Type", lit "application/json") ] /\
    fetch_body call =
      JSON.stringify
        [ (lit "from", JSON.LString (lit "contact@yourdomain.com"));
          (lit "to", JSON.LString (TO_EMAIL (env context)));
          (lit "subject",
            JSON.LString (lit "Contact Form: " ++ name contactData));
          (lit "html", JSON.LString h);
          (lit "reply_to", JSON.LString (email contactData)) ] /\
    infix (name contactData) h /\
    infix (email contactData) h /\
    infix (phone contactData) h /\
    (phone contactData = [] -> infix (lit "Not provided") h) /\
    infix (message_html (message contactData)) h /\
    Forall (fun detail => infix detail h)
      [ clientIP meta; userAgent meta; country meta; city meta;
        region meta; timezone meta; asn meta; colo meta ] /\
    message_html (message contactData) =
      flat_map (fun c => if N.eqb c NL then lit "<br>" else [c])
        (message contactData) /\
    ~ In NL (message_html (message contactData)).
Proof.
  intros Hs Hv meta h.
  exists (email_call (env context) contactData meta).
  split; [exact (before_fetch_valid context Hs Hv)|].
  do 4 (split; [reflexivity|]).
  assert (Hin : forall x, In x
    [ name contactData; email contactData;
      (if falsy (phone contactData) then lit "Not provided"
       else phone contactData);
      message_html (message contactData);
      clientIP meta; userAgent meta; country meta; city meta;
      region meta; timezone meta; asn meta; colo meta ] -> infix x h).
  { intros x Hx. apply infix_concat. cbn [In] in Hx.
    repeat (destruct Hx as [<-|Hx]; [in_list|]). contradiction. }
  split; [apply Hin; in_list|]. split; [apply Hin; in_list|].
  split.
  { destruct (phone contactData) as [|c p] eqn:Hp.
    - exists [], h. reflexivity.
    - apply Hin. in_list. }
  split.
  { intros Hp. apply Hin. rewrite Hp. in_list. }
  split; [apply Hin; in_list|].
  split.
  { repeat (constructor; [apply Hin; in_list|]). constructor. }
  split; [apply message_html_flat_map|apply message_html_no_newline].
Qed.

Lemma outbound_call_witness :
  exists call,
    before_fetch (context_of detailed_request) = Ok call /\
    fetch_body call =
    jsonlit "{'from':'contact@yourdomain.com','to':'owner@site.example','subject':'Contact Form: Ann','html':'\n          <h2>New Contact Form Submission</h2>\n          <p><strong>Name:</strong> Ann</p>\n          <p><strong>Email:</strong> a@b.co</p>\n          <p><strong>Phone:</strong> Not provided</p>\n          <p><strong>Message:</strong></p>\n          <p>hi<br>there you</p>\n          \n          <hr>\n          <h3>Connection Details</h3>\n          <p><strong>IP Address:</strong> 203.0.113.7</p>\n          <p><strong>Location:</strong> unknown, unknown, US</p>\n          <p><strong>Timezone:</strong> UTC</p>\n          <p><strong>ISP:</strong> 13335</p>\n          <p><strong>Cloudflare DC:</strong> SJC</p>\n          <p><strong>User Agent:</strong> curl/8.0</p>\n        ','reply_to':'a@b.co'}".
Proof.
  assert (Hs : sanitized (context_of detailed_request) = Ok detailed_contact)
    by (vm_compute; reflexivity).
  assert (Hv : validate detailed_contact = Ok tt)
    by (vm_compute; reflexivity).
  destruct (outbound_call (context_of detailed_request) Hs Hv)
    as (call & Hb & _ & _ & _ & Hbody & _).
  exists call. split; [exact Hb|].
  rewrite Hbody. vm_compute. reflexivity.
Defined.

(** C9. Whenever the handler calls the provider, the fields that went into
    the call satisfy every rule: the name is non-empty and at most 100
    long, the email is non-empty, of the email shape and at most 255 long,
    the message is non-empty and at most 5000 long, and none of name,
    email, phone and message holds a tag-like substring or whitespace at
    either end. *)
Theorem dispatched_fields_are_valid (context : EventContext) (call : FetchCall) :
  before_fetch context = Ok call ->
  exists contactData,
    call = email_call (env context) contactData (metadata (request context)) /\
    name contactData <> [] /\
    length (name contactData) <= 100 /\
    email contactData <> [] /\
    email_shape (email contactData) /\
    length (email contactData) <= 255 /\
    message contactData <> [] /\
    length (message contactData) <= 5000 /\
    Forall (fun field => ~ tag_like field /\ trimmed field)
      [ name contactData; email contactData;
        phone contactData; message contactData ].
Proof.
  intros H. apply before_fetch_Ok in H.
  destruct H as (cd & Hs & Hv & ->). exists cd.
  apply validate_Ok in Hv.
  destruct Hv as (Hn & He & Hm & Ht & Ln & Le & Lm).
  apply emailRegex_shape in Ht.
  repeat (split; [assumption || reflexivity|]).
  destruct (sanitized_Ok context Hs) as (_ & raw & n & e & p & m & H).
  destruct H as (_ & _ & _ & _ & _ & ->). cbn [name email phone message].
  repeat (constructor;
          [split; [apply sanitize_no_tag|apply sanitize_trimmed]|]).
  constructor.
Qed.

Lemma dispatched_fields_are_valid_witness :
  exists contactData,
    email_call site_env detailed_contact (metadata detailed_request) =
    email_call site_env contactData (metadata detailed_request) /\
    name contactData <> [] /\
    length (name contactData) <= 100 /\
    email contactData <> [] /\
    email_shape (email contactData) /\
    length (email contactData) <= 255 /\
    message contactData <> [] /\
    length (message contactData) <= 5000 /\
    Forall (fun field => ~ tag_like field /\ trimmed field)
      [ name contactData; email contactData;
        phone contactData; message contactData ].
Proof.
  apply (@dispatched_fields_are_valid (context_of detailed_request)).
  vm_compute. reflexivity.
Defined.

(* ================================================================== *)
(** * Outcome of the outbound call, and the error boundary *)
(* ================================================================== *)

(** A body that does not parse throws, whichever parser was chosen. *)
Lemma parse_body_rejected (request : Request) (error : exn) :
  (is_json (headers_get request (lit "content-type")) = true ->
   json_body request = Rejected error ->
   parse_body request = Throw error) /\
  (is_json (headers_get request (lit "content-type")) = false ->
   formData request = Rejected error ->
   parse_body request = Throw error).
Proof.
  unfold parse_body. split; intros -> ->; reflexivity.
Qed.

(** C4. When a submission has passed every check and the provider answers
    with a success status, the handler returns exactly
    [{"success":true,"message":"Email sent successfully"}] with status 200.
    Whatever is thrown inside the [try] block - a body that does not parse,
    a failing network call, a provider answer without success status - the
    handler returns exactly
    [{"success":false,"message":"Failed to send email"}] with status 500:
    the response does not depend on the error, which only goes to the
    log. *)
Theorem responses_of_the_outcome fetch (context : EventContext) :
  (forall call emailResponse,
      before_fetch context = Ok call ->
      fetch call = Resolved emailResponse ->
      ok emailResponse = true ->
      onRequestPost fetch context =
      {| response := success_response; console_error := None |}) /\
  (forall error,
      try_block fetch context = Throw error ->
      onRequestPost fetch context =
      {| response := failure_response; console_error := Some error |}) /\
  (forall error,
      origin_forbidden (headers_get (request context) (lit "Origin"))
        (split COMMA (ALLOWED_ORIGINS (env context))) = false ->
      (is_json (headers_get (request context) (lit "content-type")) = true /\
       json_body (request context) = Rejected error) \/
      (is_json (headers_get (request context) (lit "content-type")) = false /\
       formData (request context) = Rejected error) ->
      try_block fetch context = Throw error) /\
  (forall call error,
      before_fetch context = Ok call ->
      fetch call = Rejected error ->
      try_block fetch context = Throw error) /\
  (forall call emailResponse,
      before_fetch context = Ok call ->
      fetch call = Resolved emailResponse ->
      ok emailResponse = false ->
      try_block fetch context = Throw (Error (lit "Failed to send email"))).
Proof.
  split; [|split; [|split; [|split]]].
  - intros call r Hb Hf Hok. unfold onRequestPost, try_block.
    rewrite Hb. cbn [bind]. rewrite Hf. unfold after_fetch. cbn [await bind].
    rewrite Hok. cbn [negb]. now rewrite success_response_eq.
  - intros error. apply served_Throw.
  - intros error Ho Hp. unfold try_block, before_fetch, sanitized.
    rewrite Ho.
    destruct Hp as [[Hj Hb]|[Hj Hb]];
      [rewrite (proj1 (parse_body_rejected _ error) Hj Hb)
      |rewrite (proj2 (parse_body_rejected _ error) Hj Hb)];
      reflexivity.
  - intros call error Hb Hf. unfold try_block. rewrite Hb. cbn [bind].
    now rewrite Hf.
  - intros call r Hb Hf Hok. unfold try_block. rewrite Hb. cbn [bind].
    rewrite Hf. unfold after_fetch. cbn [await bind]. now rewrite Hok.
Qed.

Lemma responses_of_the_outcome_witness :
  onRequestPost provider_accepts (context_of (json_request [] (JObject ann_json)))
  = {| response := success_response; console_error := None |} /\
  onRequestPost provider_refuses (context_of (json_request [] (JObject ann_json)))
  = {| response := failure_response;
       console_error := Some (Error (lit "Failed to send email")) |} /\
  onRequestPost provider_unreachable
    (context_of (json_request [] (JObject ann_json)))
  = {| response := failure_response; console_error := Some TypeError |} /\
  onRequestPost provider_accepts (context_of (form_request [] ann_form))
  = {| response := success_response; console_error := None |} /\
  onRequestPost provider_accepts
    (context_of
       {| headers_get :=
            header_table [(lit "Content-Type", lit "application/json")];
          json_body := Rejected SyntaxError;
          formData := Rejected TypeError;
          cf := None |})
  = {| response := failure_response; console_error := Some SyntaxError |}.
Proof.
  pose (meta := metadata (json_request [] (JObject ann_json))).
  assert (Hj : before_fetch (context_of (json_request [] (JObject ann_json)))
               = Ok (email_call site_env ann meta))
    by (vm_compute; reflexivity).
  assert (Hf : before_fetch (context_of (form_request [] ann_form))
               = Ok (email_call site_env ann meta))
    by (vm_compute; reflexivity).
  split; [|split; [|split; [|split]]].
  - exact (proj1 (responses_of_the_outcome provider_accepts _)
             _ {| ok := true |} Hj eq_refl eq_refl).
  - apply (proj1 (proj2 (responses_of_the_outcome provider_refuses _))).
    exact (proj2 (proj2 (proj2 (proj2
             (responses_of_the_outcome provider_refuses _))))
             _ {| ok := false |} Hj eq_refl eq_refl).
  - apply (proj1 (proj2 (responses_of_the_outcome provider_unreachable _))).
    exact (proj1 (proj2 (proj2 (proj2
             (responses_of_the_outcome provider_unreachable _))))
             _ TypeError Hj eq_refl).
  - exact (proj1 (responses_of_the_outcome provider_accepts _)
             _ {| ok := true |} Hf eq_refl eq_refl).
  - apply (proj1 (proj2 (responses_of_the_outcome provider_accepts _))).
    apply (proj1 (proj2 (proj2 (responses_of_the_outcome provider_accepts _)))).
    + vm_compute. reflexivity.
    + left. split; vm_compute; reflexivity.
Defined.

(* ================================================================== *)
(** * Connection metadata *)
(* ================================================================== *)

From Stdlib Require DecimalPos DecimalN.


Lemma or_unknown_cases (a : option str) :
  (a = None \/ a = Some []) /\ or_unknown a = lit "unknown" \/
  a <> Some [] /\ a = Some (or_unknown a).
Proof.
  destruct a as [[|c s]|]; cbn [or_unknown]; auto.
  right. split; [discriminate|reflexivity].
Qed.









(** X3. The client address is the [CF-Connecting-IP] header when it has a
    value, else the [X-Forwarded-For] header when it has a value, else
    [unknown]; a header with an empty value counts as absent. *)
Theorem clientIP_precedence (request : Request) :
  (forall ip,
      headers_get request (lit "CF-Connecting-IP") = Some ip -> ip <> [] ->
      clientIP (metadata request) = ip) /\
  (headers_get request (lit "CF-Connecting-IP") = None \/
   headers_get request (lit "CF-Connecting-IP") = Some [] ->
   (forall ip,
       headers_get request (lit "X-Forwarded-For") = Some ip -> ip <> [] ->
       clientIP (metadata request) = ip) /\
   (headers_get request (lit "X-Forwarded-For") = None \/
    headers_get request (lit "X-Forwarded-For") = Some [] ->
    clientIP (metadata request) = lit "unknown")).
Proof.
  cbn [metadata clientIP]. split.
  - intros ip -> Hip. destruct ip; [contradiction|reflexivity].
  - intros Hcf. split.
    + intros ip Hx Hip. destruct ip as [|c ip]; [contradiction|].
      destruct Hcf as [-> | ->]; cbn [or_else]; now rewrite Hx.
    + intros Hx.
      destruct Hcf as [-> | ->], Hx as [-> | ->]; reflexivity.
Qed.

Lemma clientIP_precedence_witness :
  clientIP (metadata detailed_request) = lit "203.0.113.7" /\
  clientIP (metadata
    (json_request [ (lit "CF-Connecting-IP", []);
                    (lit "X-Forwarded-For", lit "198.51.100.4") ] JNull))
  = lit "198.51.100.4" /\
  clientIP (metadata (json_request [] JNull)) = lit "unknown".
Proof.
  split; [|split].
  - apply (proj1 (clientIP_precedence detailed_request)).
    + vm_compute. reflexivity.
    + discriminate.
  - refine (proj1 (proj2 (clientIP_precedence _) _) _ _ _).
    + right. vm_compute. reflexivity.
    + vm_compute. reflexivity.
    + discriminate.
  - refine (proj2 (proj2 (clientIP_precedence _) _) _).
    + left. vm_compute. reflexivity.
    + left. vm_compute. reflexivity.
Defined.

(* ================================================================== *)
(** * The choice of the body parser *)
(* ================================================================== *)

Lemma startsWith_prefix (p s : str) :
  startsWith p s = true <-> exists r, s = p ++ r.
Proof.
  revert s. induction p as [|x p IH]; intros s; cbn [startsWith].
  - split; [intros _; now exists s|reflexivity].
  - destruct s as [|y s].
    + split; [discriminate|]. intros (r & E). discriminate E.
    + rewrite andb_true_iff, N.eqb_eq, IH. split.
      * intros (-> & r & ->). now exists r.
      * intros (r & E). injection E as -> ->. eauto.
Qed.

Lemma includes_infix (needle hay : str) :
  includes needle hay = true <-> infix needle hay.
Proof.
  induction hay as [|c hay IH]; cbn [includes];
    rewrite orb_true_iff, startsWith_prefix.
  - split.
    + intros [(r & E)|H]; [|discriminate]. now exists [], r.
    + intros (x & y & E). left.
      destruct x; [|discriminate]. now exists y.
  - rewrite IH. split.
    + intros [(r & E)|(x & y & E)].
      * now exists [], r.
      * exists (c :: x), y. now rewrite E.
    + intros (x & y & E). destruct x as [|d x].
      * left. now exists y.
      * right. injection E as _ E. now exists x, y.
Qed.

Lemma parse_body_depends (r r' : Request) :
  headers_get r (lit "content-type") = headers_get r' (lit "content-type") ->
  (is_json (headers_get r (lit "content-type")) = true ->
   json_body r = json_body r') ->
  (is_json (headers_get r (lit "content-type")) = false ->
   formData r = formData r') ->
  parse_body r = parse_body r'.
Proof.
  intros Hh Hj Hf. unfold parse_body. rewrite <- Hh.
  destruct (is_json (headers_get r (lit "content-type"))).
  - now rewrite (Hj eq_refl).
  - now rewrite (Hf eq_refl).
Qed.

(** X4. The body is read as JSON exactly when the [content-type] header is
    present and holds the text [application/json] somewhere, in that very
    spelling; otherwise it is read as form data.  The parser that was not
    chosen plays no part: two requests that agree on the headers, on
    [request.cf] and on the outcome of the chosen parser are served
    alike. *)
Theorem body_parser_choice fetch (config : Env) (r r' : Request) :
  (is_json (headers_get r (lit "content-type")) = true <->
   exists ct, headers_get r (lit "content-type") = Some ct /\
              infix (lit "application/json") ct) /\
  ((forall h, headers_get r h = headers_get r' h) ->
   cf r = cf r' ->
   (is_json (headers_get r (lit "content-type")) = true ->
    json_body r = json_body r') ->
   (is_json (headers_get r (lit "content-type")) = false ->
    formData r = formData r') ->
   onRequestPost fetch {| request := r; env := config |} =
   onRequestPost fetch {| request := r'; env := config |}).
Proof.
  split.
  - unfold is_json. destruct (headers_get r (lit "content-type")) as [ct|].
    + rewrite includes_infix. split.
      * intros H. now exists ct.
      * intros (ct' & E & H). injection E as <-. exact H.
    + split; [discriminate|]. intros (ct & E & _). discriminate E.
  - intros Hh Hc Hj Hf.
    assert (Hp : parse_body r = parse_body r')
      by (apply parse_body_depends; auto).
    assert (Hm : metadata r = metadata r')
      by (unfold metadata; now rewrite !Hh, Hc).
    unfold onRequestPost, try_block, before_fetch, sanitized.
    cbn [request env]. now rewrite Hh, Hp, Hm.
Qed.

Lemma body_parser_choice_witness :
  onRequestPost provider_accepts
    (context_of
       {| headers_get :=
            header_table
              [(lit "Content-Type", lit "text/plain; note=application/json")];
          json_body := Resolved (JObject ann_json);
          formData := Resolved ann_form;
          cf := None |}) =
  onRequestPost provider_accepts
    (context_of
       {| headers_get :=
            header_table
              [(lit "Content-Type", lit "text/plain; note=application/json")];
          json_body := Resolved (JObject ann_json);
          formData := Rejected TypeError;
          cf := None |}).
Proof.
  refine (proj2 (body_parser_choice provider_accepts site_env _ _) _ _ _ _).
  - reflexivity.
  - reflexivity.
  - reflexivity.
  - vm_compute. discriminate.
Defined.

(* ================================================================== *)
(** * The allow-list *)
(* ================================================================== *)

Lemma split_length sep (s : str) :
  length (split sep s) = S (count_occ N.eq_dec s sep).
Proof.
  induction s as [|c s IH]; [reflexivity|]. cbn [split count_occ].
  destruct (N.eq_dec c sep) as [->|Hc].
  - rewrite N.eqb_refl. cbn [length]. now rewrite IH.
  - apply N.eqb_neq in Hc. rewrite Hc.
    destruct (split sep s) as [|h t]; [discriminate IH|exact IH].
Qed.

(** X5. Splitting [ALLOWED_ORIGINS] at the commas loses nothing and leaves
    no comma behind: joining the segments with commas gives the value
    back, no segment holds a comma, and there is one more segment than
    there are commas - so the empty value yields the one segment that is
    the empty string. *)
Theorem allowed_origins_segments (allowed : str) :
  JSON.join [COMMA] (split COMMA allowed) = allowed /\
  (forall segment, In segment (split COMMA allowed) -> ~ In COMMA segment) /\
  length (split COMMA allowed) = S (count_occ N.eq_dec allowed COMMA).
Proof.
  split; [apply split_join|]. split; [apply split_no_sep|apply split_length].
Qed.

Lemma allowed_origins_segments_witness :
  split COMMA (lit "https://a.example,https://b.example")
  = [lit "https://a.example"; lit "https://b.example"] /\
  ~ In COMMA (lit "https://b.example").
Proof.
  split; [vm_compute; reflexivity|].
  apply (proj1 (proj2 (allowed_origins_segments
                         (lit "https://a.example,https://b.example")))).
  vm_compute. auto.
Defined.

(** X6. An [Origin] value that holds a comma is rejected whatever the
    allow-list says: no segment of the list can equal it. *)
Theorem origin_with_comma_is_forbidden fetch (context : EventContext)
  (o : str) :
  headers_get (request context) (lit "Origin") = Some o ->
  In COMMA o ->
  onRequestPost fetch context =
  {| response := text_response (lit "Forbidden") 403; console_error := None |}.
Proof.
  intros Hh Hc. apply forbidden_served. rewrite Hh.
  apply origin_forbidden_spec.
  - intros ->. contradiction.
  - intros Hin. now apply split_no_sep in Hin.
Qed.

Lemma origin_with_comma_is_forbidden_witness :
  onRequestPost provider_accepts
    {| request :=
         json_request
           (origin_header (lit "https://a.example,https://b.example"))
           (JObject ann_json);
       env := env_allowing (lit "https://a.example,https://b.example") |} =
  {| response := text_response (lit "Forbidden") 403; console_error := None |}.
Proof.
  apply (@origin_with_comma_is_forbidden provider_accepts _
           (lit "https://a.example,https://b.example")).
  - vm_compute. reflexivity.
  - vm_compute. auto 30.
Defined.

(** X7. An allowed origin opens the door and nothing else: the answer to a
    request whose [Origin] is a segment of the allow-list is the answer to
    the same request sent without that header. *)
Theorem allowed_origin_changes_nothing fetch (config : Env) (r r' : Request)
  (o : str) :
  headers_get r (lit "Origin") = Some o ->
  In o (split COMMA (ALLOWED_ORIGINS config)) ->
  headers_get r' (lit "Origin") = None ->
  Forall (fun h => headers_get r h = headers_get r' h)
    [ lit "content-type"; lit "CF-Connecting-IP"; lit "X-Forwarded-For";
      lit "User-Agent" ] ->
  json_body r = json_body r' ->
  formData r = formData r' ->
  cf r = cf r' ->
  onRequestPost fetch {| request := r; env := config |} =
  onRequestPost fetch {| request := r'; env := config |}.
Proof.
  intros Ho Hin Ho' Hh Hj Hf Hc.
  inversion Hh as [|? ? Hct Hh1]; subst.
  inversion Hh1 as [|? ? Hip Hh2]; subst.
  inversion Hh2 as [|? ? Hxf Hh3]; subst.
  inversion Hh3 as [|? ? Hua _]; subst.
  assert (Hp : parse_body r = parse_body r')
    by (apply parse_body_depends; auto).
  assert (Hm : metadata r = metadata r')
    by (unfold metadata; now rewrite Hc, Hip, Hxf, Hua).
  assert (Hof : origin_forbidden (Some o)
                  (split COMMA (ALLOWED_ORIGINS config)) = false).
  { destruct o as [|c o]; [reflexivity|]. cbn [origin_forbidden].
    apply array_includes_In in Hin. now rewrite Hin. }
  unfold onRequestPost, try_block, before_fetch, sanitized.
  cbn [request env]. rewrite Ho, Ho', Hof, Hp, Hm. reflexivity.
Qed.

Lemma allowed_origin_changes_nothing_witness :
  onRequestPost provider_accepts
    (context_of
       (json_request (origin_header (lit "https://site.example"))
          (JObject ann_json))) =
  onRequestPost provider_accepts
    (context_of (json_request [] (JObject ann_json))).
Proof.
  apply (@allowed_origin_changes_nothing provider_accepts site_env _ _
           (lit "https://site.example")).
  - vm_compute. reflexivity.
  - vm_compute. auto.
  - vm_compute. reflexivity.
  - repeat constructor.
  - reflexivity.
  - reflexivity.
  - reflexivity.
Defined.

(* ================================================================== *)
(** * The handler as a whole *)
(* ================================================================== *)

Lemma validate_cases (contactData : ContactRequest) :
  validate contactData = Ok tt \/
  validate contactData =
    Return (text_response
              (lit "Missing required fields: name, email, message") 400) \/
  validate contactData =
    Return (text_response (lit "Invalid email format") 400) \/
  validate contactData = Return (text_response (lit "Input too long") 400).
Proof.
  unfold validate.
  repeat match goal with
  | |- context [if ?b then _ else _] => destruct b
  end; auto.
Qed.

Lemma sanitized_cases (context : EventContext) :
  (exists contactData, sanitized context = Ok contactData) \/
  sanitized context = Return (text_response (lit "Forbidden") 403) \/
  (exists error, sanitized context = Throw error).
Proof.
  destruct (sanitized context) as [cd|r|e] eqn:Hs; eauto.
  right. left.
  destruct (origin_forbidden (headers_get (request context) (lit "Origin"))
              (split COMMA (ALLOWED_ORIGINS (env context)))) eqn:Ho.
  - unfold sanitized in Hs. rewrite Ho in Hs. now symmetry.
  - exfalso. exact (sanitized_not_Return context Ho Hs).
Qed.

Lemma after_fetch_cases (answer : promise FetchResponse) :
  (exists r, answer = Resolved r /\ ok r = true /\
             after_fetch answer = Return success_response) \/
  (exists error, after_fetch answer = Throw error).
Proof.
  unfold after_fetch. destruct answer as [[[]]|e]; cbn [await bind ok negb].
  - left. exists {| ok := true |}. rewrite success_response_eq. auto.
  - right. eauto.
  - right. eauto.
Qed.

(** X8. The handler has six answers and no others: the 403 [Forbidden],
    the three 400s of validation, the 200 success document and the 500
    failure document. *)
Theorem the_six_responses fetch (context : EventContext) :
  In (response (onRequestPost fetch context))
    [ text_response (lit "Forbidden") 403;
      text_response (lit "Missing required fields: name, email, message") 400;
      text_response (lit "Invalid email format") 400;
      text_response (lit "Input too long") 400;
      success_response;
      failure_response ].
Proof.
  unfold onRequestPost, try_block, before_fetch.
  destruct (sanitized_cases context) as [(cd & ->) | [-> | (e & ->)]];
    cbn [bind response].
  - destruct (validate_cases cd) as [-> | [-> | [-> | ->]]]; cbn [bind response];
      try (in_list; fail).
    destruct (after_fetch_cases
                (fetch (email_call (env context) cd
                          (metadata (request context)))))
      as [(r & _ & _ & ->)|(e & ->)]; cbn [response].
    + in_list.
    + rewrite failure_response_eq. in_list.
  - in_list.
  - rewrite failure_response_eq. in_list.
Qed.

Lemma served_cases fetch (context : EventContext) :
  (exists call r,
      before_fetch context = Ok call /\ fetch call = Resolved r /\
      ok r = true /\
      onRequestPost fetch context =
      {| response := success_response; console_error := None |}) \/
  (exists error,
      (forall call r,
          before_fetch context = Ok call -> fetch call = Resolved r ->
          ok r = false) /\
      onRequestPost fetch context =
      {| response := failure_response; console_error := Some error |}) \/
  (exists text st,
      (st = 400%N \/ st = 403%N) /\
      (forall call, before_fetch context <> Ok call) /\
      onRequestPost fetch context =
      {| response := text_response text st; console_error := None |}).
Proof.
  unfold onRequestPost, try_block.
  destruct (before_fetch context) as [call|r|e] eqn:Hb; cbn [bind].
  - destruct (fetch call) as [[[]]|e] eqn:Hf;
      unfold after_fetch; cbn [await bind ok negb].
    + left. exists call, {| ok := true |}.
      rewrite success_response_eq. auto.
    + right. left. eexists. rewrite failure_response_eq.
      split; [|reflexivity].
      intros c r H Hr. injection H as <-. rewrite Hf in Hr.
      injection Hr as <-. reflexivity.
    + right. left. exists e. rewrite failure_response_eq.
      split; [|reflexivity].
      intros c r H Hr. injection H as <-. rewrite Hf in Hr.
      discriminate Hr.
  - right. right. unfold before_fetch in Hb.
    destruct (sanitized_cases context) as [(cd & Hs) | [Hs | (e & Hs)]];
      rewrite Hs in Hb; cbn [bind] in Hb.
    + destruct (validate_cases cd) as [Hv | [Hv | [Hv | Hv]]];
        rewrite Hv in Hb; cbn [bind] in Hb;
        [discriminate Hb|..]; injection Hb as <-;
        eexists _, 400%N; (split; [now left|]);
        (split; [discriminate|reflexivity]).
    + injection Hb as <-. eexists _, 403%N. split; [now right|].
      split; [discriminate|reflexivity].
    + discriminate Hb.
  - right. left. exists e. rewrite failure_response_eq.
    split; [|reflexivity]. intros c r H. discriminate H.
Qed.

(** X9. The handler answers 200 exactly when it has called the provider
    and the provider has answered with a success status; it writes to the
    error log exactly when it answers 500. *)
Theorem success_and_failure fetch (context : EventContext) :
  (status (response (onRequestPost fetch context)) = 200%N <->
   exists call r,
     before_fetch context = Ok call /\
     fetch call = Resolved r /\ ok r = true) /\
  (status (response (onRequestPost fetch context)) = 500%N <->
   exists error, console_error (onRequestPost fetch context) = Some error).
Proof.
  destruct (served_cases fetch context)
    as [(call & r & Hb & Hf & Hok & ->)
       | [(e & Hno & ->) | (text & st & Hst & Hno & ->)]];
    cbn [response console_error status success_response failure_response
         text_response].
  - split; split.
    + intros _. exists call, r. auto.
    + reflexivity.
    + discriminate.
    + intros (e & H). discriminate H.
  - split; split.
    + discriminate.
    + intros (call & r & Hb & Hf & Hok).
      rewrite (Hno call r Hb Hf) in Hok. discriminate Hok.
    + intros _. exists e. reflexivity.
    + reflexivity.
  - split; split.
    + intros H. destruct Hst as [-> | ->]; discriminate H.
    + intros (call & r & Hb & _). exfalso. exact (Hno call Hb).
    + intros H. destruct Hst as [-> | ->]; discriminate H.
    + intros (e & H). discriminate H.
Qed.

Lemma success_and_failure_witness :
  status (response
    (onRequestPost provider_accepts (context_of detailed_request))) = 200%N.
Proof.
  apply (proj1 (success_and_failure provider_accepts
                  (context_of detailed_request))).
  exists (email_call site_env detailed_contact (metadata detailed_request)),
         {| ok := true |}.
  split; [vm_compute; reflexivity|]. split; reflexivity.
Defined.



(** X11. The answer to the client gives nothing of the API key or of the
    recipient address away: under two configurations with the same
    allow-list, and providers that answer their respective calls alike,
    the handler serves the same request in the same way. *)
Theorem secrets_stay_inside fetch fetch' (config config' : Env)
  (r : Request) :
  ALLOWED_ORIGINS config = ALLOWED_ORIGINS config' ->
  (forall contactData meta,
      fetch (email_call config contactData meta) =
      fetch' (email_call config' contactData meta)) ->
  onRequestPost fetch {| request := r; env := config |} =
  onRequestPost fetch' {| request := r; env := config' |}.
Proof.
  intros Ha Hf. unfold onRequestPost, try_block, before_fetch, sanitized.
  cbn [request env]. rewrite Ha.
  destruct (origin_forbidden _ _); [reflexivity|].
  destruct (parse_body r) as [raw|x|e]; cbn [bind]; try reflexivity.
  destruct (sanitize_call (raw_name raw)); cbn [bind]; try reflexivity.
  destruct (sanitize_call (raw_email raw)); cbn [bind]; try reflexivity.
  destruct (sanitize_call (raw_phone raw)); cbn [bind]; try reflexivity.
  destruct (sanitize_call (raw_message raw)); cbn [bind]; try reflexivity.
  destruct (validate _); cbn [bind]; try reflexivity.
  now rewrite Hf.
Qed.

Lemma secrets_stay_inside_witness :
  onRequestPost provider_accepts
    {| request := detailed_request; env := site_env |} =
  onRequestPost provider_accepts
    {| request := detailed_request;
       env := {| RESEND_API_KEY := lit "re_other";
                 TO_EMAIL := lit "someone@else.example";
                 ALLOWED_ORIGINS := lit "https://site.example" |} |}.
Proof.
  refine (@secrets_stay_inside provider_accepts provider_accepts
            site_env
            {| RESEND_API_KEY := lit "re_other";
               TO_EMAIL := lit "someone@else.example";
               ALLOWED_ORIGINS := lit "https://site.example" |}
            detailed_request _ _).
  - reflexivity.
  - intros contactData meta. unfold provider_accepts. reflexivity.
Defined.

(* ================================================================== *)
(** * More on sanitation *)
(* ================================================================== *)

Lemma subsequence_refl (s : str) : subsequence s s.
Proof. induction s; constructor; assumption. Qed.

Lemma subsequence_trans (a b c : str) :
  subsequence a b -> subsequence b c -> subsequence a c.
Proof.
  intros Hab Hbc. revert a Hab.
  induction Hbc as [|x b c _ IH|x b c _ IH]; intros a Hab.
  - exact Hab.
  - inversion Hab; subst; constructor; auto.
  - constructor. auto.
Qed.

Lemma subsequence_infix (a t b : str) : subsequence t (a ++ t ++ b).
Proof.
  induction a as [|c a IH]; [|now apply sub_drop].
  cbn [app]. induction t as [|c t IH]; [|now apply sub_keep].
  cbn [app]. induction b; constructor; assumption.
Qed.

Lemma subsequence_length (a s : str) :
  subsequence a s -> length a <= length s.
Proof. induction 1; cbn [length]; lia. Qed.

Lemma subsequence_In (a s : str) (c : char) :
  subsequence a s -> In c a -> In c s.
Proof.
  induction 1 as [|x a s _ IH|x a s _ IH]; cbn [In]; tauto.
Qed.

Lemma strip_tags_subsequence (s : str) : subsequence (strip_tags s) s.
Proof.
  induction s as [|c s Hc IH|s E IH|s rest E IH] using strip_tags_ind;
    rewrite ?strip_tags_cons, ?strip_tags_nil.
  - constructor.
  - apply N.eqb_neq in Hc. rewrite Hc. now constructor.
  - rewrite N.eqb_refl, E. now constructor.
  - rewrite N.eqb_refl, E. apply sub_drop.
    destruct (after_gt_Some _ E) as (m & -> & _).
    apply (subsequence_trans IH).
    replace (m ++ GT :: rest) with ((m ++ [GT]) ++ rest ++ [])
      by (now rewrite app_nil_r, <- app_assoc).
    apply subsequence_infix.
Qed.

Lemma sanitize_subsequence (s : str) : subsequence (sanitize s) s.
Proof.
  unfold sanitize. apply subsequence_trans with (b := strip_tags s).
  - destruct (trim_infix (strip_tags s)) as (a & b & E).
    rewrite E at 2. apply subsequence_infix.
  - apply strip_tags_subsequence.
Qed.

(** X12. Sanitizing only takes characters away: the result is what is
    left of the input after some characters were removed, in the same
    order; it is never longer than the input and holds no character the
    input did not hold. *)
Theorem sanitize_only_removes (s : str) :
  subsequence (sanitize s) s /\
  length (sanitize s) <= length s /\
  (forall c, In c (sanitize s) -> In c s).
Proof.
  pose proof (sanitize_subsequence s) as H.
  split; [exact H|]. split.
  - now apply subsequence_length.
  - intros c. now apply subsequence_In.
Qed.

Lemma after_gt_app (m s : str) :
  ~ In GT m -> after_gt (m ++ GT :: s) = Some s.
Proof.
  induction m as [|c m IH]; intros H; cbn [app after_gt].
  - now rewrite N.eqb_refl.
  - destruct (N.eqb c GT) eqn:E.
    + apply N.eqb_eq in E. subst. exfalso. apply H. now left.
    + apply IH. intros Hin. apply H. now right.
Qed.

(** X13. Tags are removed one by one from left to right, and the text
    around them is kept: text without [<] in front of the rest of the input
    is copied as it is, and a [<] up to the first [>] after it is dropped
    whole. *)
Theorem strip_tags_piecewise (a m s : str) :
  ~ In LT a -> ~ In GT m ->
  strip_tags (a ++ s) = a ++ strip_tags s /\
  strip_tags (LT :: m ++ GT :: s) = strip_tags s /\
  strip_tags (a ++ LT :: m ++ GT :: s) = a ++ strip_tags s.
Proof.
  intros Ha Hm.
  assert (H1 : forall t, strip_tags (a ++ t) = a ++ strip_tags t).
  { intros t. induction a as [|c a IH]; [reflexivity|].
    cbn [app]. rewrite strip_tags_cons.
    destruct (N.eqb c LT) eqn:E.
    - apply N.eqb_eq in E. subst. exfalso. apply Ha. now left.
    - f_equal. apply IH. intros Hin. apply Ha. now right. }
  assert (H2 : strip_tags (LT :: m ++ GT :: s) = strip_tags s).
  { rewrite strip_tags_cons, N.eqb_refl. now rewrite (@after_gt_app m s Hm). }
  split; [apply H1|]. split; [exact H2|]. now rewrite H1, H2.
Qed.

Lemma strip_tags_piecewise_witness :
  strip_tags (lit "Ann " ++ LT :: lit "b class='x'" ++ GT :: lit "Lee")
  = lit "Ann " ++ strip_tags (lit "Lee").
Proof.
  refine (proj2 (proj2 (@strip_tags_piecewise
                          (lit "Ann ") (lit "b class='x'") (lit "Lee") _ _))).
  - vm_compute. intuition discriminate.
  - vm_compute. intuition discriminate.
Defined.

Lemma trimStart_nil (s : str) :
  trimStart s = [] <-> Forall (fun c => is_space c = true) s.
Proof.
  induction s as [|c s IH]; cbn [trimStart].
  - split; [constructor|reflexivity].
  - destruct (is_space c) eqn:E.
    + rewrite IH. split; [now constructor|]. intros H. now inversion H.
    + split; [discriminate|]. intros H. inversion H. congruence.
Qed.

Lemma trim_nil (s : str) :
  trim s = [] <-> Forall (fun c => is_space c = true) s.
Proof.
  unfold trim, trimEnd. split.
  - intros H. apply (f_equal (@rev char)) in H.
    rewrite rev_involutive in H. cbn [rev] in H.
    apply trimStart_nil in H. apply Forall_rev in H.
    rewrite rev_involutive in H.
    destruct (trimStart s) as [|c t] eqn:E.
    + now apply trimStart_nil.
    + apply trimStart_head in E. inversion H. congruence.
  - intros H. apply trimStart_nil in H. now rewrite H.
Qed.

(** X14. A required field that holds nothing but whitespace and tags
    counts as missing: it sanitizes to the empty string, and the answer
    is the 400 that names the required fields. *)
Theorem blank_field_is_missing fetch (context : EventContext)
  (raw : RawContact) (n e p m : str) :
  origin_forbidden (headers_get (request context) (lit "Origin"))
    (split COMMA (ALLOWED_ORIGINS (env context))) = false ->
  parse_body (request context) = Ok raw ->
  raw_name raw = StringValue n -> raw_email raw = StringValue e ->
  raw_phone raw = StringValue p -> raw_message raw = StringValue m ->
  Forall (fun c => is_space c = true) (strip_tags n) \/
  Forall (fun c => is_space c = true) (strip_tags e) \/
  Forall (fun c => is_space c = true) (strip_tags m) ->
  onRequestPost fetch context =
  {| response :=
       text_response (lit "Missing required fields: name, email, message") 400;
     console_error := None |}.
Proof.
  intros Ho Hp Hn He Hph Hm H.
  apply served_Return with
    (contactData := {| name := sanitize n; email := sanitize e;
                       phone := sanitize p; message := sanitize m |}).
  - now apply sanitized_strings with (raw := raw).
  - apply validate_missing. cbn [name email message]. unfold sanitize.
    rewrite !trim_nil. exact H.
Qed.

Lemma blank_field_is_missing_witness :
  onRequestPost provider_accepts
    (context_of
       (json_request []
          (JObject (with_field (lit "name") (JString (lit " <b> </b> "))
                      ann_json)))) =
  {| response :=
       text_response (lit "Missing required fields: name, email, message") 400;
     console_error := None |}.
Proof.
  refine (@blank_field_is_missing provider_accepts _
            {| raw_name := StringValue (lit " <b> </b> ");
               raw_email := StringValue (lit "a@b.co");
               raw_phone := StringValue (lit "555 0100");
               raw_message := StringValue (lit "hi") |}
            _ _ _ _ _ _ eq_refl eq_refl eq_refl eq_refl _).
  - vm_compute. reflexivity.
  - vm_compute. reflexivity.
  - left. vm_compute. repeat constructor.
Defined.

(** X15. Sanitation keeps a [<] that no [>] follows, and the HTML body
    then closes it: when the name of a submission holds a [<], the body
    holds that [<], the rest of the name and the [</p>] of the template
    in one piece, which is a tag-like substring that starts in the user's
    text. *)
Theorem unclosed_tag_reaches_the_html (contactData : ContactRequest)
  (meta : Metadata) (a b : str) :
  name contactData = a ++ LT :: b ->
  infix (LT :: b ++ lit "</p>") (html contactData meta) /\
  tag_like (LT :: b ++ lit "</p>") /\
  (~ In GT b -> trimmed (LT :: b) -> sanitize (LT :: b) = LT :: b).
Proof.
  intros Hn. split; [|split].
  - unfold html. rewrite Hn. cbn [concat].
    match goal with
    | |- infix _ (?p1 ++ ?p2 ++ ?p3 ++ ?p4 ++ (a ++ LT :: b) ++ ?p6 ++ ?rest) =>
        exists (p1 ++ p2 ++ p3 ++ p4 ++ a), rest
    end.
    rewrite <- !app_assoc. cbn [app]. rewrite <- !app_assoc. reflexivity.
  - exists [], (b ++ lit "</p"), []. cbn [app].
    change (lit "</p>") with (lit "</p" ++ [GT]).
    now rewrite <- !app_assoc.
  - intros Hb Ht. apply sanitize_clean; [|exact Ht].
    intros H. apply tag_like_cons in H. destruct H as [[_ H]|H].
    + contradiction.
    + destruct H as (x & y & z & E). apply Hb. rewrite E.
      apply in_or_app. right. right. apply in_or_app. right. now left.
Qed.

Lemma unclosed_tag_reaches_the_html_witness :
  infix (lit "<img src=x onerror=alert(1)</p>")
    (html {| name := lit "<img src=x onerror=alert(1)";
             email := lit "a@b.co"; phone := []; message := lit "hi" |}
          (metadata detailed_request)) /\
  sanitized
    (context_of
       (json_request []
          (JObject (with_field (lit "name")
                      (JString (lit "<img src=x onerror=alert(1)"))
                      ann_json)))) =
  Ok {| name := lit "<img src=x onerror=alert(1)"; email := lit "a@b.co";
        phone := lit "555 0100"; message := lit "hi" |}.
Proof.
  split.
  - exact (proj1 (@unclosed_tag_reaches_the_html
                    {| name := lit "<img src=x onerror=alert(1)";
                       email := lit "a@b.co"; phone := [];
                       message := lit "hi" |}
                    (metadata detailed_request)
                    [] (lit "img src=x onerror=alert(1)") eq_refl)).
  - vm_compute. reflexivity.
Defined.

(* ================================================================== *)
(** * More on validation *)
(* ================================================================== *)

Lemma count_occ_none (s : str) (x : char) :
  Forall (fun c => c <> x) s -> count_occ N.eq_dec s x = 0.
Proof.
  intros H. apply count_occ_not_In. rewrite Forall_forall in H.
  intros Hin. now apply (H x Hin).
Qed.

(** X16. An email that passes the pattern holds exactly one [@], no
    whitespace, a dot, and at least five characters. *)
Theorem accepted_email_facts (s : str) :
  test emailRegex s = true ->
  count_occ N.eq_dec s AT = 1 /\
  Forall (fun c => is_space c = false) s /\
  In DOT s /\
  5 <= length s.
Proof.
  intros H. apply emailRegex_shape in H.
  destruct H as (l & d & t & -> & Hl & Hd & Ht & Hall).
  rewrite !Forall_app in Hall. destruct Hall as (Al & Ad & At).
  assert (Hno : forall p, Forall (fun c => is_space c = false /\ c <> AT) p ->
                          count_occ N.eq_dec p AT = 0 /\
                          Forall (fun c => is_space c = false) p).
  { intros p Hp. split.
    - apply count_occ_none. eapply Forall_impl; [|exact Hp]. now intros c [_ ?].
    - eapply Forall_impl; [|exact Hp]. now intros c [? _]. }
  destruct (Hno l Al) as [Cl Sl], (Hno d Ad) as [Cd Sd], (Hno t At) as [Ct St].
  split; [|split; [|split]].
  - rewrite count_occ_app. cbn [count_occ].
    destruct (N.eq_dec AT AT) as [_|N]; [|contradiction].
    rewrite count_occ_app. cbn [count_occ].
    destruct (N.eq_dec DOT AT) as [E|_]; [discriminate E|].
    assert (E : forall x y z, x = 0 -> y = 0 -> z = 0 -> x + S (y + z) = 1)
      by (intros; lia).
    apply E; [exact Cl|exact Cd|exact Ct].
  - apply Forall_app. split; [exact Sl|]. constructor; [reflexivity|].
    apply Forall_app. split; [exact Sd|]. constructor; [reflexivity|exact St].
  - apply in_or_app. right. right. apply in_or_app. right. now left.
  - rewrite length_app. cbn [length]. rewrite length_app. cbn [length].
    destruct l; [contradiction|]. destruct d; [contradiction|].
    destruct t; [contradiction|]. cbn [length]. lia.
Qed.

Lemma accepted_email_facts_witness :
  count_occ N.eq_dec (lit "a@b.co") AT = 1 /\
  Forall (fun c => is_space c = false) (lit "a@b.co") /\
  In DOT (lit "a@b.co") /\
  5 <= length (lit "a@b.co").
Proof.
  apply accepted_email_facts. vm_compute. reflexivity.
Defined.

(** X17. The handler calls the provider exactly for the submissions that
    pass sanitation and satisfy every rule: all three required fields
    non-empty, the email of the pattern's shape, and the three lengths
    within 100, 255 and 5000. *)
Theorem dispatched_exactly_when_valid (context : EventContext) :
  (exists call, before_fetch context = Ok call) <->
  exists contactData,
    sanitized context = Ok contactData /\
    name contactData <> [] /\ email contactData <> [] /\
    message contactData <> [] /\
    email_shape (email contactData) /\
    length (name contactData) <= 100 /\
    length (email contactData) <= 255 /\
    length (message contactData) <= 5000.
Proof.
  split.
  - intros (call & H). apply before_fetch_Ok in H.
    destruct H as (cd & Hs & Hv & _). exists cd.
    apply validate_Ok in Hv.
    destruct Hv as (Hn & He & Hm & Ht & Ln & Le & Lm).
    apply emailRegex_shape in Ht. repeat split; assumption.
  - intros (cd & Hs & Hn & He & Hm & Ht & Ln & Le & Lm).
    eexists. apply (before_fetch_valid context Hs).
    rewrite (validate_present cd Hn He Hm).
    apply emailRegex_shape in Ht. rewrite Ht. cbn [negb].
    apply Nat.ltb_ge in Ln, Le, Lm. now rewrite Ln, Le, Lm.
Qed.

Lemma dispatched_exactly_when_valid_witness :
  exists call, before_fetch (context_of detailed_request) = Ok call.
Proof.
  apply (proj2 (dispatched_exactly_when_valid (context_of detailed_request))).
  exists detailed_contact.
  split; [vm_compute; reflexivity|].
  repeat (split; [discriminate|]).
  split; [apply emailRegex_shape; vm_compute; reflexivity|].
  repeat split; vm_compute; lia.
Defined.

(* ================================================================== *)
(** * Bodies that pass sanitation, and bodies that do not *)
(* ================================================================== *)

Lemma member_value_string (key : str) members (s : str) :
  member_value key members = StringValue s <->
  member_get key members = Some (JString s).
Proof.
  unfold member_value. destruct (member_get key members) as [v|].
  - destruct v; cbn [json_value]; split; intros H;
      try discriminate H; injection H as H; try discriminate H;
      now subst.
  - split; discriminate.
Qed.

Lemma sanitized_other (context : EventContext) (raw : RawContact) :
  origin_forbidden (headers_get (request context) (lit "Origin"))
    (split COMMA (ALLOWED_ORIGINS (env context))) = false ->
  parse_body (request context) = Ok raw ->
  (forall s, raw_name raw <> StringValue s) \/
  (forall s, raw_email raw <> StringValue s) \/
  (forall s, raw_phone raw <> StringValue s) \/
  (forall s, raw_message raw <> StringValue s) ->
  sanitized context = Throw TypeError.
Proof.
  intros Ho Hp H. unfold sanitized. rewrite Ho, Hp. cbn [bind].
  destruct raw as [n e p m]. cbn [raw_name raw_email raw_phone raw_message] in *.
  destruct n, e, p, m; cbn [sanitize_call bind]; try reflexivity;
    exfalso; destruct H as [H|[H|[H|H]]]; eapply H; reflexivity.
Qed.

(** X18. A JSON body passes sanitation exactly when it is an object whose
    [name], [email], [phone] and [message] members are all present and all
    strings.  Any other JSON body - [null], a number, an array, an object
    with a member missing or holding [null] or a number - ends in the 500
    of the [catch] block with a [TypeError] in the log. *)
Theorem json_bodies_that_pass fetch (context : EventContext) (doc : json) :
  origin_forbidden (headers_get (request context) (lit "Origin"))
    (split COMMA (ALLOWED_ORIGINS (env context))) = false ->
  is_json (headers_get (request context) (lit "content-type")) = true ->
  json_body (request context) = Resolved doc ->
  ((exists contactData, sanitized context = Ok contactData) <->
   exists members n e p m,
     doc = JObject members /\
     member_get (lit "name") members = Some (JString n) /\
     member_get (lit "email") members = Some (JString e) /\
     member_get (lit "phone") members = Some (JString p) /\
     member_get (lit "message") members = Some (JString m)) /\
  ((forall contactData, sanitized context <> Ok contactData) ->
   onRequestPost fetch context =
   {| response := failure_response; console_error := Some TypeError |}).
Proof.
  intros Ho Hj Hb.
  assert (Hparse : parse_body (request context) =
                   n <- json_get doc (lit "name") ;;
                   e <- json_get doc (lit "email") ;;
                   p <- json_get doc (lit "phone") ;;
                   m <- json_get doc (lit "message") ;;
                   Ok {| raw_name := n; raw_email := e; raw_phone := p;
                         raw_message := m |})
    by (unfold parse_body; now rewrite Hj, Hb).
  split; [split|].
  - intros (cd & Hs).
    destruct (sanitized_Ok context Hs)
      as (_ & raw & n & e & p & m & Hp & Hn & He & Hph & Hm & _).
    rewrite Hparse in Hp.
    destruct doc; cbn [json_get bind] in Hp; try discriminate Hp;
      injection Hp as <-;
      cbn [raw_name raw_email raw_phone raw_message] in *;
      try discriminate Hn.
    exists members, n, e, p, m. split; [reflexivity|].
    now rewrite <- !member_value_string.
  - intros (members & n & e & p & m & -> & Hn & He & Hph & Hm).
    eexists. apply sanitized_strings with
      (raw := {| raw_name := member_value (lit "name") members;
                 raw_email := member_value (lit "email") members;
                 raw_phone := member_value (lit "phone") members;
                 raw_message := member_value (lit "message") members |})
      (n := n) (e := e) (p := p) (m := m);
      cbn [raw_name raw_email raw_phone raw_message];
      try (now apply member_value_string).
    + exact Ho.
    + now apply parse_body_json_object.
  - intros Hno. apply served_sanitized_Throw.
    destruct (parse_body (request context)) as [raw|r|e] eqn:Hp.
    + apply (sanitized_other context Ho Hp).
      destruct (raw_name raw) as [|n|] eqn:Hn;
        try (left; intros s; discriminate).
      destruct (raw_email raw) as [|e|] eqn:He;
        try (right; left; intros s; discriminate).
      destruct (raw_phone raw) as [|p|] eqn:Hph;
        try (right; right; left; intros s; discriminate).
      destruct (raw_message raw) as [|m|] eqn:Hm;
        try (right; right; right; intros s; discriminate).
      exfalso. eapply Hno.
      exact (sanitized_strings context Ho Hp Hn He Hph Hm).
    + destruct doc; cbv [json_get bind] in Hparse; discriminate Hparse.
    + destruct doc; cbv [json_get bind] in Hparse; try discriminate Hparse.
      injection Hparse as ->. unfold sanitized. rewrite Ho, Hp. reflexivity.
Qed.

Lemma json_bodies_that_pass_witness :
  onRequestPost provider_accepts
    (context_of
       (json_request []
          (JObject (with_field (lit "phone") JNull ann_json)))) =
  {| response := failure_response; console_error := Some TypeError |} /\
  onRequestPost provider_accepts (context_of (json_request [] (JArray []))) =
  {| response := failure_response; console_error := Some TypeError |}.
Proof.
  split.
  - refine (proj2 (@json_bodies_that_pass provider_accepts _
                     (JObject (with_field (lit "phone") JNull ann_json))
                     _ _ _) _).
    + vm_compute. reflexivity.
    + vm_compute. reflexivity.
    + reflexivity.
    + intros cd H. vm_compute in H. discriminate H.
  - refine (proj2 (@json_bodies_that_pass provider_accepts _ (JArray [])
                     _ _ _) _).
    + vm_compute. reflexivity.
    + vm_compute. reflexivity.
    + reflexivity.
    + intros cd H. vm_compute in H. discriminate H.
Defined.

Lemma form_field_cases fd key :
  (exists s, form_field fd key = StringValue s /\
             formData_get fd key <> Some EFile) \/
  (form_field fd key = Other /\ formData_get fd key = Some EFile).
Proof.
  unfold form_field. destruct (formData_get fd key) as [[[|c s]|]|].
  - left. exists []. split; [reflexivity|discriminate].
  - left. exists (c :: s). split; [reflexivity|discriminate].
  - right. auto.
  - left. exists []. split; [reflexivity|discriminate].
Qed.

(** X19. A form-encoded body passes sanitation exactly when none of the
    four fields is a file: a field that is absent reads as the empty string, so
    no such body ends in a [TypeError].  A file in one of the four fields
    does: the answer is the 500 of the [catch] block. *)
Theorem form_bodies_that_pass fetch (context : EventContext)
  (fd : list (str * entry)) :
  origin_forbidden (headers_get (request context) (lit "Origin"))
    (split COMMA (ALLOWED_ORIGINS (env context))) = false ->
  is_json (headers_get (request context) (lit "content-type")) = false ->
  formData (request context) = Resolved fd ->
  ((exists contactData, sanitized context = Ok contactData) <->
   Forall (fun key => formData_get fd key <> Some EFile)
     [lit "name"; lit "email"; lit "phone"; lit "message"]) /\
  (Exists (fun key => formData_get fd key = Some EFile)
     [lit "name"; lit "email"; lit "phone"; lit "message"] ->
   onRequestPost fetch context =
   {| response := failure_response; console_error := Some TypeError |}).
Proof.
  intros Ho Hj Hb.
  pose proof (parse_body_form _ Hj Hb) as Hp.
  set (raw := {| raw_name := form_field fd (lit "name");
                 raw_email := form_field fd (lit "email");
                 raw_phone := form_field fd (lit "phone");
                 raw_message := form_field fd (lit "message") |}) in Hp.
  assert (Hfile :
    Exists (fun key => formData_get fd key = Some EFile)
      [lit "name"; lit "email"; lit "phone"; lit "message"] ->
    sanitized context = Throw TypeError).
  { intros H. apply (sanitized_other context Ho Hp).
    cbn [raw raw_name raw_email raw_phone raw_message].
    repeat (apply Exists_cons in H; destruct H as [H|H];
            [unfold form_field; rewrite H;
             first [left; intros s; discriminate
                   |right; left; intros s; discriminate
                   |right; right; left; intros s; discriminate
                   |right; right; right; intros s; discriminate]|]).
    inversion H. }
  split; [split|].
  - intros (cd & Hs). rewrite Forall_forall. intros key Hk Hf.
    assert (He : Exists (fun key => formData_get fd key = Some EFile)
                   [lit "name"; lit "email"; lit "phone"; lit "message"])
      by (apply Exists_exists; eauto).
    rewrite (Hfile He) in Hs. discriminate Hs.
  - intros H.
    inversion H as [|? ? Hn H1]; subst.
    inversion H1 as [|? ? He H2]; subst.
    inversion H2 as [|? ? Hph H3]; subst.
    inversion H3 as [|? ? Hm _]; subst.
    destruct (form_field_cases fd (lit "name")) as [(n & En & _)|[_ E]];
      [|contradiction].
    destruct (form_field_cases fd (lit "email")) as [(e & Ee & _)|[_ E]];
      [|contradiction].
    destruct (form_field_cases fd (lit "phone")) as [(p & Ep & _)|[_ E]];
      [|contradiction].
    destruct (form_field_cases fd (lit "message")) as [(m & Em & _)|[_ E]];
      [|contradiction].
    eexists. exact (sanitized_strings context Ho Hp En Ee Ep Em).
  - intros H. apply served_sanitized_Throw. now apply Hfile.
Qed.

Lemma form_bodies_that_pass_witness :
  (exists contactData,
      sanitized (context_of (form_request [] [])) = Ok contactData) /\
  onRequestPost provider_accepts
    (context_of (form_request [] (with_field (lit "message") EFile ann_form))) =
  {| response := failure_response; console_error := Some TypeError |}.
Proof.
  split.
  - refine (proj2 (proj1 (@form_bodies_that_pass provider_accepts
                            (context_of (form_request [] [])) [] _ _ _)) _).
    + vm_compute. reflexivity.
    + vm_compute. reflexivity.
    + reflexivity.
    + repeat constructor; discriminate.
  - refine (proj2 (@form_bodies_that_pass provider_accepts _
                     (with_field (lit "message") EFile ann_form) _ _ _) _).
    + vm_compute. reflexivity.
    + vm_compute. reflexivity.
    + reflexivity.
    + do 3 apply Exists_cons_tl. apply Exists_cons_hd.
      vm_compute. reflexivity.
Defined.

(* ================================================================== *)
(** * More on the line breaks *)
(* ================================================================== *)

(** X20. Replacing the line breaks works piece by piece: the result for a
    concatenation is the concatenation of the results; a message without
    line feed is unchanged; every other character, a carriage return
    included, is kept, and each line feed adds three characters. *)
Theorem message_html_piecewise (a b : str) :
  message_html (a ++ b) = message_html a ++ message_html b /\
  (~ In NL a -> message_html a = a) /\
  (forall c, c <> NL -> In c a -> In c (message_html a)) /\
  length (message_html a) = length a + 3 * count_occ N.eq_dec a NL.
Proof.
  rewrite !message_html_flat_map. split; [apply flat_map_app|].
  split; [|split].
  - induction a as [|c a IH]; [reflexivity|]. intros H. cbn [flat_map].
    destruct (N.eqb c NL) eqn:E.
    + apply N.eqb_eq in E. subst. exfalso. apply H. now left.
    + cbn [app]. f_equal. apply IH. intros Hin. apply H. now right.
  - intros c Hc Hin. apply in_flat_map. exists c. split; [exact Hin|].
    apply N.eqb_neq in Hc. rewrite Hc. now left.
  - induction a as [|c a IH]; [reflexivity|]. cbn [flat_map count_occ].
    rewrite length_app, IH.
    destruct (N.eq_dec c NL) as [->|Hc].
    + rewrite N.eqb_refl. cbn [length lit]. cbn. lia.
    + apply N.eqb_neq in Hc. rewrite Hc. cbn [length]. lia.
Qed.

Lemma message_html_piecewise_witness :
  message_html (lit "no line feed") = lit "no line feed".
Proof.
  apply (proj1 (proj2 (message_html_piecewise (lit "no line feed") []))).
  vm_compute. intuition discriminate.
Defined.

(* ================================================================== *)
(** * Quoting for the outbound body *)
(* ================================================================== *)

Lemma unhex_hex_digit (n : N) :
  (n < 16)%N -> unhex (JSON.hex_digit n) = Some n.
Proof.
  intros H.
  assert (E : In n [0; 1; 2; 3; 4; 5; 6; 7; 8; 9; 10; 11; 12; 13; 14; 15]%N).
  { cbn [In]. lia. }
  cbn [In] in E.
  repeat (destruct E as [<-|E]; [vm_compute; reflexivity|]). contradiction.
Qed.

Lemma unquote_units_plain (c : char) (r : str) :
  c <> BACKSLASH -> c <> DQUOTE -> (32 <= c)%N ->
  unquote_units (c :: r) = option_map (cons c) (unquote_units r).
Proof.
  intros H1 H2 H3. cbn [unquote_units].
  apply N.eqb_neq in H1, H2. rewrite H1, H2.
  replace (N.ltb c 32) with false by (symmetry; now apply N.ltb_ge).
  cbn [orb]. now destruct (unquote_units r).
Qed.

Lemma unquote_units_simple (e x : char) (r : str) :
  e <> 117%N -> simple_escape e = Some x ->
  unquote_units (BACKSLASH :: e :: r) = option_map (cons x) (unquote_units r).
Proof.
  intros H1 H2. cbn [unquote_units]. rewrite N.eqb_refl.
  apply N.eqb_neq in H1. rewrite H1, H2. now destruct (unquote_units r).
Qed.

Lemma unquote_units_unicode (c : char) (r : str) :
  (c < 65536)%N ->
  unquote_units (JSON.unicode_escape c ++ r)
  = option_map (cons c) (unquote_units r).
Proof.
  intros Hc. unfold JSON.unicode_escape. cbn [app unquote_units].
  rewrite !N.eqb_refl.
  rewrite !unhex_hex_digit by (apply N.mod_lt; discriminate).
  replace (4096 * ((c / 4096) mod 16) + 256 * ((c / 256) mod 16)
           + 16 * ((c / 16) mod 16) + c mod 16)%N with c.
  - now destruct (unquote_units r).
  - pose proof (N.div_mod' c 16) as E1.
    pose proof (N.div_mod' (c / 16) 16) as E2.
    pose proof (N.div_mod' (c / 256) 16) as E3.
    assert (D2 : (c / 16 / 16 = c / 256)%N)
      by (rewrite N.Div0.div_div; reflexivity).
    assert (D3 : (c / 256 / 16 = c / 4096)%N)
      by (rewrite N.Div0.div_div; reflexivity).
    assert (B : (c / 4096 < 16)%N)
      by (apply N.Div0.div_lt_upper_bound; lia).
    rewrite D2 in E2. rewrite D3 in E3.
    rewrite (N.mod_small (c / 4096) 16) by exact B. lia.
Qed.

Lemma unquote_units_escape (c : char) (r : str) :
  (c < 55296)%N ->
  unquote_units (JSON.escape_unit c ++ r)
  = option_map (cons c) (unquote_units r).
Proof.
  intros Hc. unfold JSON.escape_unit.
  repeat match goal with
  | |- context [if N.eqb c ?k then _ else _] =>
      destruct (N.eqb_spec c k) as [->|?];
      [cbn [app]; apply unquote_units_simple;
       [discriminate|vm_compute; reflexivity]|]
  end.
  destruct (N.ltb_spec c 32).
  - apply unquote_units_unicode. lia.
  - cbn [app]. now apply unquote_units_plain.
Qed.

Lemma unquote_quote_units (s : str) :
  Forall (fun c => (c < 65536)%N) s ->
  unquote_units (JSON.quote_units s) = Some s.
Proof.
  remember (length s) as n eqn:Hn. revert s Hn.
  induction n as [n IH] using lt_wf_ind. intros s Hn Hs.
  destruct s as [|c r]; [reflexivity|].
  inversion Hs as [|? ? Hc Hr]; subst.
  assert (IHr : unquote_units (JSON.quote_units r) = Some r)
    by (apply (IH (length r)); [cbn [length]; lia|reflexivity|exact Hr]).
  assert (Hsur : forall x t, (55296 <= x)%N ->
            unquote_units (x :: t) = option_map (cons x) (unquote_units t)).
  { intros x t Hx. apply unquote_units_plain.
    - intros ->. vm_compute in Hx. now apply Hx.
    - intros ->. vm_compute in Hx. now apply Hx.
    - lia. }
  cbn [JSON.quote_units]. unfold JSON.is_high_surrogate, JSON.is_low_surrogate.
  destruct (andb (55296 <=? c)%N (c <=? 56319)%N) eqn:Hhigh.
  - apply andb_true_iff in Hhigh. destruct Hhigh as [H1 _].
    apply N.leb_le in H1.
    destruct r as [|d r'].
    + rewrite <- (app_nil_r (JSON.unicode_escape c)).
      now rewrite unquote_units_unicode.
    + destruct (andb (56320 <=? d)%N (d <=? 57343)%N) eqn:Hlow.
      * apply andb_true_iff in Hlow. destruct Hlow as [H2 _].
        apply N.leb_le in H2.
        inversion Hr as [|? ? Hd Hr']; subst.
        rewrite Hsur by exact H1. rewrite Hsur by lia.
        rewrite (IH (length r')); [reflexivity|cbn [length]; lia
                                  |reflexivity|exact Hr'].
      * rewrite unquote_units_unicode by exact Hc. now rewrite IHr.
  - destruct (andb (56320 <=? c)%N (c <=? 57343)%N) eqn:Hlow.
    + rewrite unquote_units_unicode by exact Hc. now rewrite IHr.
    + assert (Hlt : (c < 55296 \/ 57343 < c)%N).
      { apply andb_false_iff in Hhigh, Hlow.
        rewrite !N.leb_gt in Hhigh, Hlow. lia. }
      destruct Hlt as [Hlt|Hgt].
      * rewrite unquote_units_escape by exact Hlt. now rewrite IHr.
      * assert (E : JSON.escape_unit c = [c]).
        { unfold JSON.escape_unit.
          repeat match goal with
          | |- context [if N.eqb c ?k then _ else _] =>
              destruct (N.eqb_spec c k) as [->|?];
              [vm_compute in Hgt; discriminate Hgt|]
          end.
          destruct (N.ltb_spec c 32); [lia|reflexivity]. }
        rewrite E. cbn [app]. rewrite Hsur by lia. now rewrite IHr.
Qed.

(** X21. Quoting a value for the outbound JSON body loses nothing: reading
    the quoted text back as a JSON string gives the value, whatever
    quotes, backslashes, control characters or lone surrogates it holds.
    Hence two different values are never quoted alike. *)
Theorem quoting_round_trip (s s' : str) :
  Forall (fun c => (c < 65536)%N) s ->
  Forall (fun c => (c < 65536)%N) s' ->
  unquote (JSON.QuoteJSONString s) = Some s /\
  (JSON.QuoteJSONString s = JSON.QuoteJSONString s' -> s = s').
Proof.
  assert (H : forall t, Forall (fun c => (c < 65536)%N) t ->
                        unquote (JSON.QuoteJSONString t) = Some t).
  { intros t Ht. unfold unquote, JSON.QuoteJSONString.
    rewrite rev_app_distr. cbn [rev app]. rewrite N.eqb_refl.
    cbn [andb]. rewrite rev_involutive. now apply unquote_quote_units. }
  intros Hs Hs'. split; [now apply H|].
  intros E. apply H in Hs, Hs'. rewrite E in Hs. congruence.
Qed.

Lemma quoting_round_trip_witness :
  unquote (JSON.QuoteJSONString (lit "a\b" ++ NL :: DQUOTE :: [55357; 7]%N))
  = Some (lit "a\b" ++ NL :: DQUOTE :: [55357; 7]%N).
Proof.
  refine (proj1 (@quoting_round_trip _ [] _ _)).
  - repeat constructor.
  - constructor.
Defined.

Lemma unicode_escape_printable (c : char) :
  Forall (fun x => (32 <= x)%N) (JSON.unicode_escape c).
Proof.
  assert (H : forall n, (32 <= JSON.hex_digit n)%N).
  { intros n. unfold JSON.hex_digit. destruct (n <? 10)%N; cbv iota; lia. }
  unfold JSON.unicode_escape.
  repeat (constructor; [first [apply H | vm_compute; discriminate]|]).
  constructor.
Qed.

Lemma escape_unit_printable (c : char) :
  Forall (fun x => (32 <= x)%N) (JSON.escape_unit c).
Proof.
  unfold JSON.escape_unit.
  repeat match goal with
  | |- context [if N.eqb c ?k then _ else _] =>
      destruct (N.eqb_spec c k) as [->|?];
      [repeat constructor; vm_compute; discriminate|]
  end.
  destruct (N.ltb_spec c 32).
  - apply unicode_escape_printable.
  - repeat constructor. assumption.
Qed.

Lemma quote_units_printable (s : str) :
  Forall (fun x => (32 <= x)%N) (JSON.quote_units s).
Proof.
  remember (length s) as n eqn:Hn. revert s Hn.
  induction n as [n IH] using lt_wf_ind. intros s Hn.
  destruct s as [|c r]; [constructor|]. subst n.
  assert (IHr : Forall (fun x => (32 <= x)%N) (JSON.quote_units r))
    by (apply (IH (length r)); [cbn [length]; lia|reflexivity]).
  cbn [JSON.quote_units]. unfold JSON.is_high_surrogate, JSON.is_low_surrogate.
  destruct (andb (55296 <=? c)%N (c <=? 56319)%N) eqn:Hhigh.
  - apply andb_true_iff in Hhigh. destruct Hhigh as [H1 _].
    apply N.leb_le in H1.
    destruct r as [|d r']; [apply unicode_escape_printable|].
    destruct (andb (56320 <=? d)%N (d <=? 57343)%N) eqn:Hlow.
    + apply andb_true_iff in Hlow. destruct Hlow as [H2 _].
      apply N.leb_le in H2.
      constructor; [lia|]. constructor; [lia|].
      apply (IH (length r')); [cbn [length]; lia|reflexivity].
    + apply Forall_app. split; [apply unicode_escape_printable|exact IHr].
  - destruct (andb (56320 <=? c)%N (c <=? 57343)%N).
    + apply Forall_app. split; [apply unicode_escape_printable|exact IHr].
    + apply Forall_app. split; [apply escape_unit_printable|exact IHr].
Qed.

Lemma member_printable (kv : str * JSON.literal) :
  Forall (fun x => (32 <= x)%N) (JSON.member kv).
Proof.
  unfold JSON.member, JSON.QuoteJSONString.
  assert (Q : forall s, Forall (fun x => (32 <= x)%N)
                          (DQUOTE :: JSON.quote_units s ++ [DQUOTE])).
  { intros s. constructor; [vm_compute; discriminate|].
    apply Forall_app. split; [apply quote_units_printable|].
    repeat constructor. vm_compute. discriminate. }
  apply Forall_app. split; [apply Q|].
  apply Forall_app. split; [repeat constructor; vm_compute; discriminate|].
  destruct (snd kv) as [[|]|s];
    [repeat constructor; vm_compute; discriminate..|apply Q].
Qed.

Lemma join_printable (sep : str) (l : list str) :
  Forall (fun x => (32 <= x)%N) sep ->
  Forall (Forall (fun x => (32 <= x)%N)) l ->
  Forall (fun x => (32 <= x)%N) (JSON.join sep l).
Proof.
  intros Hsep Hl. induction Hl as [|x l Hx Hl IH]; [constructor|].
  destruct l as [|y l]; [exact Hx|].
  rewrite join_cons. rewrite !Forall_app. auto.
Qed.

(** X22. The body of the outbound call is one line of printable text:
    whatever the submission and the request headers hold, every line
    break and every other control character in them arrives escaped. *)
Theorem outbound_body_is_printable (config : Env)
  (contactData : ContactRequest) (meta : Metadata) :
  Forall (fun c => (32 <= c)%N)
    (fetch_body (email_call config contactData meta)) /\
  ~ In NL (fetch_body (email_call config contactData meta)).
Proof.
  assert (H : Forall (fun c => (32 <= c)%N)
                (fetch_body (email_call config contactData meta))).
  { cbn [email_call fetch_body]. unfold JSON.stringify.
    apply Forall_app. split; [repeat constructor; vm_compute; discriminate|].
    apply Forall_app. split; [|repeat constructor; vm_compute; discriminate].
    apply join_printable; [repeat constructor; vm_compute; discriminate|].
    apply Forall_forall. intros x Hx. apply in_map_iff in Hx.
    destruct Hx as (kv & <- & _). apply member_printable. }
  split; [exact H|].
  intros Hin. rewrite Forall_forall in H. apply H in Hin.
  vm_compute in Hin. now apply Hin.
Qed.

(* ================================================================== *)
(** * Sanitizing text without tags *)
(* ================================================================== *)

Lemma trimEnd_split_space (s : str) :
  exists b, s = trimEnd s ++ b /\ Forall (fun c => is_space c = true) b.
Proof.
  unfold trimEnd. destruct (trimStart_split (rev s)) as (a & E & Ha).
  exists (rev a). split.
  - rewrite <- rev_app_distr, <- E. now rewrite rev_involutive.
  - now apply Forall_rev.
Qed.

(** X23. On text without tags sanitizing is trimming: only whitespace at
    the two ends is taken away, and everything between - inner
    whitespace, a lone [<] or [>] - stays as it is. *)
Theorem sanitize_without_tags (s : str) :
  ~ tag_like s ->
  exists a b,
    s = a ++ sanitize s ++ b /\
    Forall (fun c => is_space c = true) a /\
    Forall (fun c => is_space c = true) b /\
    trimmed (sanitize s).
Proof.
  intros H. unfold sanitize. rewrite (strip_tags_clean H). unfold trim.
  destruct (trimStart_split s) as (a & E & Ha).
  destruct (trimEnd_split_space (trimStart s)) as (b & E' & Hb).
  exists a, b. split; [now rewrite <- E', <- E|].
  split; [exact Ha|]. split; [exact Hb|]. apply trim_trimmed.
Qed.

Lemma sanitize_without_tags_witness :
  exists a b,
    lit "  5 > 2  and 3 < 4 " = a ++ sanitize (lit "  5 > 2  and 3 < 4 ") ++ b /\
    Forall (fun c => is_space c = true) a /\
    Forall (fun c => is_space c = true) b /\
    trimmed (sanitize (lit "  5 > 2  and 3 < 4 ")).
Proof.
  apply sanitize_without_tags.
  apply search_tagRegex_false. vm_compute. reflexivity.
Defined.
